(** * pmbrl.planner: the CEM planner and its rollout engine

    A shallow embedding of [src/pmbrl/planner.py].  Tensors are nested
    lists, scalars are real numbers extended with one not-a-number value,
    and the external collaborators (dynamics ensemble, reward model,
    exploration measure, random-number generator) are parameters that
    thread an explicit world state. *)

From Stdlib Require Import List Arith Lia Bool Reals Lra Permutation.
From Stdlib Require String.
From Stdlib Require Import ZArith.
From Stdlib Require Floats.SpecFloat.
Import ListNotations.

Set Implicit Arguments.

(** ** Scalars

    Tensor entries are idealised: a real number or NaN.  Rounding,
    overflow and infinities are not modelled; every arithmetic operation
    propagates NaN as IEEE arithmetic does, and a division by zero (which
    the planner only meets as [0 / 0], the mean of an empty slice or the
    unbiased deviation of a single value) is NaN.  The results stated over
    these scalars concern shapes, the flow of the data, the selection and
    the propagation of NaN.  What float32 rounding decides (whether a sum
    depends on the order of its terms, whether the mean of equal values is
    that value) is not read off them: [Binary32] below carries the
    reduction in question in binary32 arithmetic. *)

Module Scalar.

Inductive scalar : Type :=
| Num (r : R)
| NaN.

Definition zero : scalar := Num 0%R.
Definition one : scalar := Num 1%R.
Definition of_nat (n : nat) : scalar := Num (INR n).

Definition isnan (x : scalar) : bool :=
match x with NaN => true | Num _ => false end.

Definition add (x y : scalar) : scalar :=
match x, y with Num a, Num b => Num (a + b)%R | _, _ => NaN end.

Definition sub (x y : scalar) : scalar :=
match x, y with Num a, Num b => Num (a - b)%R | _, _ => NaN end.

Definition mul (x y : scalar) : scalar :=
match x, y with Num a, Num b => Num (a * b)%R | _, _ => NaN end.

Definition div (x y : scalar) : scalar :=
match x, y with
| Num a, Num b => if Req_dec_T b 0%R then NaN else Num (a / b)%R
| _, _ => NaN
end.

Definition sqrt (x : scalar) : scalar :=
match x with
| Num a => if Rlt_dec a 0%R then NaN else Num (R_sqrt.sqrt a)
| NaN => NaN
end.

(** [max] and [min] of a reduction propagate NaN. *)
Definition max (x y : scalar) : scalar :=
match x, y with Num a, Num b => Num (Rmax a b) | _, _ => NaN end.

Definition min (x y : scalar) : scalar :=
match x, y with Num a, Num b => Num (Rmin a b) | _, _ => NaN end.

(** Strict order used by the top-k selection; NaN ranks above every
  number, as in torch's sorting routines. *)
Definition ltb (x y : scalar) : bool :=
match x, y with
| Num a, Num b => if Rlt_dec a b then true else false
| Num _, NaN => true
| NaN, _ => false
end.

(** [le x y]: [y] ranks at least as high as [x]. *)
Definition le (x y : scalar) : Prop := ltb y x = false.

Definition is_num (x : scalar) : Prop :=
match x with Num _ => True | NaN => False end.

Definition nonneg (x : scalar) : Prop :=
match x with Num r => (0 <= r)%R | NaN => False end.

End Scalar.

Import Scalar.

(** ** Tensors as nested lists *)

Abbreviation tensor1 := (list scalar).
Abbreviation tensor2 := (list (list scalar)).
Abbreviation tensor3 := (list (list (list scalar))).
Abbreviation tensor4 := (list (list (list (list scalar)))).

Definition shape1 (n : nat) (t : tensor1) : Prop := length t = n.
Definition shape2 (n m : nat) (t : tensor2) : Prop :=
  length t = n /\ Forall (shape1 m) t.
Definition shape3 (n m k : nat) (t : tensor3) : Prop :=
  length t = n /\ Forall (shape2 m k) t.
Definition shape4 (n m k d : nat) (t : tensor4) : Prop :=
  length t = n /\ Forall (shape3 m k d) t.

Definition all_num1 (t : tensor1) : Prop := Forall is_num t.
Definition all_num2 (t : tensor2) : Prop := Forall all_num1 t.
Definition all_num3 (t : tensor3) : Prop := Forall all_num2 t.

Definition nonneg3 (t : tensor3) : Prop := Forall (Forall (Forall nonneg)) t.

(** [torch.zeros(n, m, k)], [torch.ones(n, m, k)]. *)
Definition full3 (n m k : nat) (x : scalar) : tensor3 :=
  repeat (repeat (repeat x k) m) n.

Definition zip_with {A B C : Type} (f : A -> B -> C) (l1 : list A) (l2 : list B)
  : list C :=
  map (fun p => f (fst p) (snd p)) (combine l1 l2).

(** Elementwise operations on tensors of one shape. *)
Definition tadd1 : tensor1 -> tensor1 -> tensor1 := zip_with add.
Definition tadd3 : tensor3 -> tensor3 -> tensor3 :=
  zip_with (zip_with (zip_with add)).
Definition tmul3 : tensor3 -> tensor3 -> tensor3 :=
  zip_with (zip_with (zip_with mul)).

(** Broadcasting of a size-1 dimension 1 to [n], as [a + b] does when [a]
    has shape (h, 1, k) and [b] has shape (h, n, k). *)
Definition expand_dim1 (n : nat) (t : tensor3) : tensor3 :=
  map (fun slab => match slab with [row] => repeat row n | _ => slab end) t.

(** Reductions.  [column c rows] is the slice [rows[:, c]]. *)
Definition column (c : nat) (rows : tensor2) : tensor1 :=
  map (fun row => nth c row NaN) rows.

Definition tsum (l : tensor1) : scalar := fold_left add l zero.

Definition mean_list (l : tensor1) : scalar :=
  div (tsum l) (of_nat (length l)).

Definition sq_dev (m x : scalar) : scalar := mul (sub x m) (sub x m).

(** [std]: [unbiased = true] divides by [n - 1], [false] by [n]. *)
Definition std_list (unbiased : bool) (l : tensor1) : scalar :=
  let n := length l in
  sqrt (div (tsum (map (sq_dev (mean_list l)) l))
            (of_nat (if unbiased then n - 1 else n))).

(** Reduction of dimension 0 of a (n, width) tensor by [f]. *)
Definition reduce_dim0 (f : tensor1 -> scalar) (width : nat) (rows : tensor2)
  : tensor1 :=
  map (fun c => f (column c rows)) (seq 0 width).

(** Row-major storage, [view] and [reshape]. *)
Definition flatten3 (t : tensor3) : tensor1 := concat (concat t).
Definition flatten4 (t : tensor4) : tensor1 := concat (concat (concat t)).

Fixpoint chunks {A : Type} (count size : nat) (l : list A) : list (list A) :=
  match count with
  | 0 => []
  | S count' => firstn size l :: chunks count' size (skipn size l)
  end.

(** ** Errors, planner state and the planner monad *)

Inductive error : Type := IndexError | RuntimeError.

Inductive outcome (A : Type) : Type :=
| Ok (a : A)
| Raise (e : error).

Arguments Ok {A} a.
Arguments Raise {A} e.

(** [t.view(-1, d)] on [data] elements. *)
Definition view2 (d : nat) (data : tensor1) : outcome tensor2 :=
  if d =? 0 then Raise RuntimeError
  else if length data mod d =? 0 then Ok (chunks (length data / d) d data)
  else Raise RuntimeError.

(** [t.view(n, m, k)] on [data] elements. *)
Definition view3 (n m k : nat) (data : tensor1) : outcome tensor3 :=
  if length data =? n * m * k
  then Ok (map (chunks m k) (chunks n (m * k) data))
  else Raise RuntimeError.

(** [torch.stack(ts, dim=0)]: refuses an empty list. *)
Definition stack {A : Type} (ts : list A) : outcome (list A) :=
  match ts with
  | [] => Raise RuntimeError
  | _ :: _ => Ok ts
  end.

(** [torch.stack] of rank-1 tensors also refuses unequal lengths. *)
Definition stack1 (ts : list tensor1) : outcome tensor2 :=
  match ts with
  | [] => Raise RuntimeError
  | t :: rest =>
      if forallb (fun u => length u =? length t) rest then Ok ts
      else Raise RuntimeError
  end.

(** [t.max()] and [t.min()] over all elements: refuse an empty tensor. *)
Definition tensor_max (l : tensor1) : outcome scalar :=
  match l with
  | [] => Raise RuntimeError
  | x :: rest => Ok (fold_left Scalar.max rest x)
  end.

Definition tensor_min (l : tensor1) : outcome scalar :=
  match l with
  | [] => Raise RuntimeError
  | x :: rest => Ok (fold_left Scalar.min rest x)
  end.

(** [l[i] = x] for [i] in range. *)
Fixpoint set_item {A : Type} (i : nat) (x : A) (l : list A) : list A :=
  match l, i with
  | [], _ => []
  | _ :: l', 0 => x :: l'
  | y :: l', S i' => y :: set_item i' x l'
  end.

(** ** [torch.topk(k, dim=0, largest=True, sorted=False)]

    A reference model: [k] rounds, each taking the index of a largest
    remaining value.  The order of ties is the model's own; torch leaves it
    unspecified. *)

Fixpoint argmax (vals : tensor1) (best : nat) (cands : list nat) : nat :=
  match cands with
  | [] => best
  | j :: rest =>
      if ltb (nth best vals NaN) (nth j vals NaN)
      then argmax vals j rest
      else argmax vals best rest
  end.

Fixpoint select_top (k : nat) (vals : tensor1) (cands : list nat) : list nat :=
  match k, cands with
  | S k', c :: rest =>
      let i := argmax vals c rest in
      i :: select_top k' vals (remove Nat.eq_dec i cands)
  | _, _ => []
  end.

Definition topk (vals : tensor1) (k : nat) : outcome (list nat) :=
  if k <=? length vals
  then Ok (select_top k vals (seq 0 (length vals)))
  else Raise RuntimeError.

(** [torch.where(cond, a, b)] on rank-1 tensors of one length. *)
Fixpoint where1 (cond : list bool) (a b : tensor1) : tensor1 :=
  match cond, a, b with
  | c :: cond', x :: a', y :: b' => (if c then x else y) :: where1 cond' a' b'
  | _, _, _ => []
  end.

(** [torch.where(torch.isnan(r), torch.zeros_like(r), r)]. *)
Definition nan_to_zero (returns : tensor1) : tensor1 :=
  where1 (map isnan returns) (map (fun _ => zero) returns) returns.

(** [actions[:, idx]]. *)
Definition gather_dim1 (idx : list nat) (actions : tensor3) : tensor3 :=
  map (fun slab => map (fun i => nth i slab []) idx) actions.

(** [t.mean(dim=1, keepdim=True)] and [t.std(dim=1, unbiased=False,
    keepdim=True)] on a (h, k, width) tensor. *)
Definition mean_dim1_keep (width : nat) (t : tensor3) : tensor3 :=
  map (fun slab => [reduce_dim0 mean_list width slab]) t.

Definition std_dim1_keep (width : nat) (t : tensor3) : tensor3 :=
  map (fun slab => [reduce_dim0 (std_list false) width slab]) t.

(** [x.unsqueeze(0).repeat(e, 1, 1, 1).permute(1, 0, 2, 3)]. *)
Definition permute_1023 (h : nat) (t : tensor4) : tensor4 :=
  map (fun i => map (fun member => nth i member []) t) (seq 0 h).

Definition replicate_actions (e : nat) (actions : tensor3) : tensor4 :=
  permute_1023 (length actions) (repeat actions e).

(** [t.squeeze(dim=0)] on a (1, k) tensor. *)
Definition squeeze_dim0 (t : tensor2) : tensor1 :=
  match t with
  | [row] => row
  | _ => concat t
  end.

(** ** Planner state and monad

    The planner object carries the reward log ([self.reward_stats]); the
    world is the state of everything outside the planner (random-number
    stream, collaborator modules).  A raised exception leaves the state as
    it was when it was raised. *)

Record planner (world : Type) : Type := {
  reward_stats : list tensor1;
  env : world
}.

Section Monad.
Variable world : Type.

Definition M (A : Type) : Type := planner world -> outcome A * planner world.

Definition ret {A : Type} (a : A) : M A := fun p => (Ok a, p).

Definition bind {A B : Type} (c : M A) (k : A -> M B) : M B :=
  fun p =>
    match c p with
    | (Ok a, p') => k a p'
    | (Raise e, p') => (Raise e, p')
    end.

Definition lift {A : Type} (o : outcome A) : M A := fun p => (o, p).

Definition set_env (p : planner world) (w : world) : planner world :=
  {| reward_stats := reward_stats p; env := w |}.

(** A call into a collaborator: total, may change the world. *)
Definition call {A : Type} (f : world -> A * world) : M A :=
  fun p => let (a, w) := f (env p) in (Ok a, set_env p w).

Definition read_reward_stats : M (list tensor1) :=
  fun p => (Ok (reward_stats p), p).

Definition append_reward_stats (r : tensor1) : M unit :=
  fun p => (Ok tt, {| reward_stats := reward_stats p ++ [r]; env := env p |}).

Definition clear_reward_stats : M unit :=
  fun p => (Ok tt, {| reward_stats := []; env := env p |}).

(** [for t in ts: x = body(t, x)]. *)
Fixpoint for_each {X : Type} (ts : list nat) (body : nat -> X -> M X) (x : X)
  : M X :=
  match ts with
  | [] => ret x
  | t :: ts' => bind (body t x) (for_each ts' body)
  end.
End Monad.

Arguments ret {world A} a.
Arguments lift {world A} o.
Arguments read_reward_stats {world}.
Arguments clear_reward_stats {world}.
Arguments append_reward_stats {world} r.

Notation "x <- c ;; k" := (bind c (fun x => k))
  (at level 61, c at next level, right associativity).
Notation "' pat <- c ;; k" := (bind c (fun x => match x with pat => k end))
  (at level 61, pat pattern, c at next level, right associativity).
Notation "c ;;; k" := (bind c (fun _ => k))
  (at level 61, right associativity).

(** ** Collaborators and configuration *)

Definition stats_map : Type := list (String.string * scalar).

(** The interfaces the planner consumes: [torch.randn], the ensemble's
    forward pass and [sample], the reward model, the information-gain
    measure and its [get_stats]. *)
Record externals (world : Type) : Type := {
  ensemble_size : nat;
  randn : nat -> nat -> nat -> world -> tensor3 * world;
  ensemble : tensor3 -> tensor3 -> world -> (tensor3 * tensor3) * world;
  ensemble_sample : tensor3 -> tensor3 -> world -> tensor3 * world;
  reward_model : tensor2 -> world -> tensor1 * world;
  measure : tensor4 -> tensor4 -> world -> tensor2 * world;
  measure_get_stats : world -> stats_map * world
}.

Record config : Type := {
  action_size : nat;
  plan_horizon : nat;
  optimisation_iters : nat;
  n_candidates : nat;
  top_candidates : nat;
  use_reward : bool;
  use_exploration : bool;
  expl_scale : scalar
}.

Record reward_summary : Type := {
  stat_max : scalar;
  stat_mean : scalar;
  stat_min : scalar;
  stat_std : scalar
}.

(** ** The planner *)

Section Planner.
Variable world : Type.
Variable ext : externals world.
Variable cfg : config.

Local Abbreviation E := (ensemble_size ext).
Local Abbreviation A := (action_size cfg).
Local Abbreviation H := (plan_horizon cfg).
Local Abbreviation C := (n_candidates cfg).
Local Abbreviation K := (top_candidates cfg).

(** [Planner.get_stats]. *)
Definition get_stats : M world (stats_map * reward_summary) :=
  info_stats <- (if use_exploration cfg
                 then call (measure_get_stats ext)
                 else ret []) ;;
  log <- read_reward_stats ;;
  reward_tensor <- lift (stack1 log) ;;
  let reward_tensor := concat reward_tensor in
  mx <- lift (tensor_max reward_tensor) ;;
  let mean := mean_list reward_tensor in
  mn <- lift (tensor_min reward_tensor) ;;
  let sd := std_list true reward_tensor in
  clear_reward_stats ;;;
  ret (info_stats,
       {| stat_max := mx; stat_mean := mean; stat_min := mn; stat_std := sd |}).

(** One pass of the loop of [Planner.perform_rollout]; the loop state is
    the three lists [(states, delta_means, delta_vars)]. *)
Definition rollout_step (actions : tensor4) (t : nat)
    (st : list tensor3 * list tensor3 * list tensor3)
  : M world (list tensor3 * list tensor3 * list tensor3) :=
  let '(states, delta_means, delta_vars) := st in
  ' (delta_mean, delta_var) <-
      call (ensemble ext (nth t states []) (nth t actions [])) ;;
  delta <- call (ensemble_sample ext delta_mean delta_var) ;;
  ret (set_item (t + 1) (tadd3 (nth t states []) delta) states,
       set_item (t + 1) delta_mean delta_means,
       set_item (t + 1) delta_var delta_vars).

(** [Planner.perform_rollout]: returns [(states, delta_vars, delta_means)]. *)
Definition perform_rollout (current_state : tensor3) (actions : tensor3)
  : M world (tensor4 * tensor4 * tensor4) :=
  let T := H + 1 in
  let states := repeat ([] : tensor3) T in
  let delta_means := repeat ([] : tensor3) T in
  let delta_vars := repeat ([] : tensor3) T in
  let states := set_item 0 current_state states in
  let actions := replicate_actions E actions in
  ' (states, delta_means, delta_vars) <-
      for_each (seq 0 H) (rollout_step actions)
               (states, delta_means, delta_vars) ;;
  states <- lift (stack (tl states)) ;;
  delta_vars <- lift (stack (tl delta_vars)) ;;
  delta_means <- lift (stack (tl delta_means)) ;;
  ret (states, delta_vars, delta_means).

(** [action_mean + action_std_dev * noise], lines 76-81. *)
Definition sample_actions (action_mean action_std_dev noise : tensor3)
  : tensor3 :=
  tadd3 (expand_dim1 C action_mean)
        (tmul3 (expand_dim1 C action_std_dev) noise).

(** Lines 86-89: the exploration bonus, one row per timestep and one
    column per candidate, scaled and summed over time. *)
Definition exploration_returns (returns : tensor1)
    (delta_means delta_vars : tensor4) : M world tensor1 :=
  if use_exploration cfg then
    bonus <- call (measure ext delta_means delta_vars) ;;
    let expl_bonus := map (map (fun x => mul x (expl_scale cfg))) bonus in
    let expl_bonus := reduce_dim0 tsum C expl_bonus in
    ret (tadd1 returns expl_bonus)
  else ret returns.

(** Lines 92-99: the reward of every simulated state, averaged over the
    ensemble and summed over time. *)
Definition reward_scores (state_size : nat) (states : tensor4)
  : M world tensor1 :=
  states <- lift (view2 state_size (flatten4 states)) ;;
  rewards <- call (reward_model ext states) ;;
  rewards <- lift (view3 H E C rewards) ;;
  ret (reduce_dim0 tsum C (map (reduce_dim0 mean_list C) rewards)).

(** Lines 91-101. *)
Definition reward_returns (state_size : nat) (returns : tensor1)
    (states : tensor4) : M world tensor1 :=
  if use_reward cfg then
    rewards <- reward_scores state_size states ;;
    append_reward_stats rewards ;;;
    ret (tadd1 returns rewards)
  else ret returns.

(** Lines 84-101: the returns as accumulated from both contributions. *)
Definition accumulated_returns (state_size : nat)
    (states delta_vars delta_means : tensor4) : M world tensor1 :=
  let returns := repeat zero C in
  returns <- exploration_returns returns delta_means delta_vars ;;
  reward_returns state_size returns states.

(** Lines 84-105: the returns of the candidates, NaN replaced by 0. *)
Definition candidate_returns (state_size : nat)
    (states delta_vars delta_means : tensor4) : M world tensor1 :=
  returns <- accumulated_returns state_size states delta_vars delta_means ;;
  ret (nan_to_zero returns).

(** Lines 115-118: the refit of the action distribution. *)
Definition refit (best_actions : tensor3) : tensor3 * tensor3 :=
  (mean_dim1_keep A best_actions, std_dim1_keep A best_actions).

(** Lines 111-113: the elite action sequences. *)
Definition select_elite (idx : list nat) (actions : tensor3)
  : outcome tensor3 :=
  view3 H K A (flatten3 (gather_dim1 idx actions)).

(** The body of the optimisation loop, lines 76-118. *)
Definition cem_iteration (state_size : nat) (state : tensor3)
    (dist : tensor3 * tensor3) : M world (tensor3 * tensor3) :=
  let '(action_mean, action_std_dev) := dist in
  noise <- call (randn ext H C A) ;;
  let actions := sample_actions action_mean action_std_dev noise in
  ' (states, delta_vars, delta_means) <- perform_rollout state actions ;;
  returns <- candidate_returns state_size states delta_vars delta_means ;;
  topk <- lift (topk returns K) ;;
  best_actions <- lift (select_elite topk actions) ;;
  ret (refit best_actions).

Definition cem_loop (state_size : nat) (state : tensor3)
  : M world (tensor3 * tensor3) :=
  for_each (seq 0 (optimisation_iters cfg))
           (fun _ => cem_iteration state_size state)
           (full3 H 1 A zero, full3 H 1 A one).

(** [t[0]]. *)
Definition index0 {X : Type} (t : list X) : outcome X :=
  match t with
  | [] => Raise IndexError
  | x :: _ => Ok x
  end.

(** [Planner.forward]. *)
Definition forward (state : tensor1) : M world tensor1 :=
  let state_size := length state in
  let state := repeat (repeat state C) E in
  ' (action_mean, _) <- cem_loop state_size state ;;
  slab <- lift (index0 action_mean) ;;
  ret (squeeze_dim0 slab).

(** *** The rollout recurrence as the specification words it

    [recurrence s0 actions t w] is the state, the distribution parameters
    recorded at position [t], and the world, after [t] simulated steps. *)
Fixpoint recurrence (s0 : tensor3) (actions : tensor3) (t : nat) (w : world)
  : (tensor3 * tensor3 * tensor3) * world :=
  match t with
  | 0 => ((s0, [], []), w)
  | S t' =>
      let '((s, _, _), w1) := recurrence s0 actions t' w in
      let '((delta_mean, delta_var), w2) :=
        ensemble ext s (repeat (nth t' actions []) E) w1 in
      let '(delta, w3) := ensemble_sample ext delta_mean delta_var w2 in
      ((tadd3 s delta, delta_mean, delta_var), w3)
  end.

Definition state_at s0 actions w t := fst (fst (fst (recurrence s0 actions t w))).
Definition delta_mean_at s0 actions w t :=
  snd (fst (fst (recurrence s0 actions t w))).
Definition delta_var_at s0 actions w t := snd (fst (recurrence s0 actions t w)).
Definition world_at s0 actions w t := snd (recurrence s0 actions t w).

End Planner.

(** * Specification vocabulary

    The predicates and named values the properties are stated with. *)

(** [vals[i]]. *)
Definition val (vals : tensor1) (i : nat) : scalar := nth i vals NaN.

(** The candidates below [n] that a selection [idx] leaves out. *)
Definition unselected (idx : list nat) (n : nat) : list nat :=
  filter (fun j => negb (existsb (Nat.eqb j) idx)) (seq 0 n).

(** The sum of a list of reals. *)
Definition rsum (rs : list R) : R := fold_right Rplus 0%R rs.

(** [t[i, j, k]]. *)
Definition entry3 (t : tensor3) (i j k : nat) : scalar :=
  nth k (nth j (nth i t []) []) NaN.

Section Vocabulary.
Variable world : Type.
Variable ext : externals world.
Variable cfg : config.

Local Abbreviation E := (ensemble_size ext).
Local Abbreviation A := (action_size cfg).
Local Abbreviation H := (plan_horizon cfg).
Local Abbreviation C := (n_candidates cfg).
Local Abbreviation K := (top_candidates cfg).

(** The three lists of the loop after [n] passes. *)
Definition trace_states s0 actions w n : list tensor3 :=
  map (fun t => if t <=? n then state_at ext s0 actions w t else [])
      (seq 0 (H + 1)).

Definition trace_means s0 actions w n : list tensor3 :=
  map (fun t => if t <=? n then delta_mean_at ext s0 actions w t else [])
      (seq 0 (H + 1)).

Definition trace_vars s0 actions w n : list tensor3 :=
  map (fun t => if t <=? n then delta_var_at ext s0 actions w t else [])
      (seq 0 (H + 1)).

(** The interface of the dynamics ensemble (state dimension [D]): on a
    state batch and an action batch of the documented shapes, the forward
    pass and [sample] return tensors of the shape of the state batch. *)
Definition ensemble_shapes (D : nat) : Prop :=
  forall s a w, shape3 E C D s -> shape3 E C A a ->
    shape3 E C D (fst (fst (ensemble ext s a w))) /\
    shape3 E C D (snd (fst (ensemble ext s a w))).

Definition sample_shapes (D : nat) : Prop :=
  forall dm dv w, shape3 E C D dm -> shape3 E C D dv ->
    shape3 E C D (fst (ensemble_sample ext dm dv w)).

(** The remaining interfaces: [torch.randn] returns the requested shape,
    the reward model one reward per state row, the measure one bonus per
    timestep and candidate. *)
Definition randn_shapes : Prop :=
  forall h c a w, shape3 h c a (fst (randn ext h c a w)).

Definition reward_rows : Prop :=
  forall rows w, length (fst (reward_model ext rows w)) = length rows.

Definition measure_shapes (D : nat) : Prop :=
  forall dm dv w, shape4 H E C D dm -> shape4 H E C D dv ->
    shape2 H C (fst (measure ext dm dv w)).

(** All collaborators honour their interfaces. *)
Record interface_ok (D : nat) : Prop := {
  ok_randn : randn_shapes;
  ok_ensemble : ensemble_shapes D;
  ok_sample : sample_shapes D;
  ok_reward : reward_rows;
  ok_measure : measure_shapes D
}.

(** The configurations the planner accepts. *)
Definition valid_config : Prop :=
  0 < A /\ 0 < H /\ 0 < optimisation_iters cfg /\ 0 < C /\ 0 < K /\ K <= C.

(** The reward contribution of candidate [c], as the specification words
    it: the sum over the timesteps of the mean over the ensemble members of
    the reward predicted for the state of (timestep, member, candidate),
    which is row [(t * E + e) * C + c] of the flattened trajectory. *)
Definition reward_contribution (r : tensor1) (c : nat) : scalar :=
  tsum (map (fun t =>
               mean_list (map (fun e => nth ((t * E + e) * C + c) r NaN)
                              (seq 0 E)))
            (seq 0 H)).

(** The returns after the exploration bonus, the world after the measure
    was called, and the reward vector of a trajectory. *)
Definition exploration_part (dmeans dvars : tensor4) (w : world) : tensor1 :=
  if use_exploration cfg then
    tadd1 (repeat zero C)
          (reduce_dim0 tsum C
             (map (map (fun x => mul x (expl_scale cfg)))
                  (fst (measure ext dmeans dvars w))))
  else repeat zero C.

Definition world_after_measure (dmeans dvars : tensor4) (w : world) : world :=
  if use_exploration cfg then snd (measure ext dmeans dvars w) else w.

Definition rewards_of (states : tensor4) (w : world) : tensor1 :=
  map (reward_contribution (fst (reward_model ext (concat (concat states)) w)))
      (seq 0 C).

(** The returns before NaN normalisation and the planner after scoring. *)
Definition scored_returns (states dvars dmeans : tensor4) (w : world) : tensor1 :=
  let r0 := exploration_part dmeans dvars w in
  if use_reward cfg
  then tadd1 r0 (rewards_of states (world_after_measure dmeans dvars w))
  else r0.

Definition scored_planner (states dvars dmeans : tensor4) (p : planner world)
  : planner world :=
  let w := world_after_measure dmeans dvars (env p) in
  if use_reward cfg
  then {| reward_stats := reward_stats p ++ [rewards_of states w];
          env := snd (reward_model ext (concat (concat states)) w) |}
  else set_env p w.

(** The values of one iteration started from planner [p]. *)
Definition iter_actions (mean std : tensor3) (p : planner world) : tensor3 :=
  sample_actions cfg mean std (fst (randn ext H C A (env p))).

Definition iter_states (s0 mean std : tensor3) (p : planner world) : tensor4 :=
  map (state_at ext s0 (iter_actions mean std p)
                (snd (randn ext H C A (env p)))) (seq 1 H).

Definition iter_vars (s0 mean std : tensor3) (p : planner world) : tensor4 :=
  map (delta_var_at ext s0 (iter_actions mean std p)
                    (snd (randn ext H C A (env p)))) (seq 1 H).

Definition iter_means (s0 mean std : tensor3) (p : planner world) : tensor4 :=
  map (delta_mean_at ext s0 (iter_actions mean std p)
                     (snd (randn ext H C A (env p)))) (seq 1 H).

Definition iter_rolled (s0 mean std : tensor3) (p : planner world)
  : planner world :=
  set_env p (world_at ext s0 (iter_actions mean std p)
                      (snd (randn ext H C A (env p))) H).

Definition iter_returns (s0 mean std : tensor3) (p : planner world) : tensor1 :=
  scored_returns (iter_states s0 mean std p) (iter_vars s0 mean std p)
                 (iter_means s0 mean std p) (env (iter_rolled s0 mean std p)).

Definition iter_planner (s0 mean std : tensor3) (p : planner world)
  : planner world :=
  scored_planner (iter_states s0 mean std p) (iter_vars s0 mean std p)
                 (iter_means s0 mean std p) (iter_rolled s0 mean std p).

(** Every entry of the reward log holds one value per candidate. *)
Definition log_ok (p : planner world) : Prop :=
  Forall (shape1 C) (reward_stats p).

(** The exploration statistics and the planner after they are read. *)
Definition info_stats (p : planner world) : stats_map :=
  if use_exploration cfg then fst (measure_get_stats ext (env p)) else [].

Definition after_info (p : planner world) : planner world :=
  if use_exploration cfg
  then set_env p (snd (measure_get_stats ext (env p)))
  else p.

(** [torch.randn] draws numbers: no NaN in the noise. *)
Definition randn_finite : Prop :=
  forall w, all_num3 (fst (randn ext H C A w)).

End Vocabulary.

Arguments trace_states {world}.
Arguments trace_means {world}.
Arguments trace_vars {world}.
Arguments ensemble_shapes {world}.
Arguments sample_shapes {world}.
Arguments randn_shapes {world}.
Arguments reward_rows {world}.
Arguments measure_shapes {world}.
Arguments interface_ok {world}.
Arguments reward_contribution {world}.
Arguments exploration_part {world}.
Arguments world_after_measure {world}.
Arguments rewards_of {world}.
Arguments scored_returns {world}.
Arguments scored_planner {world}.
Arguments iter_actions {world}.
Arguments iter_states {world}.
Arguments iter_vars {world}.
Arguments iter_means {world}.
Arguments iter_rolled {world}.
Arguments iter_returns {world}.
Arguments iter_planner {world}.
Arguments log_ok {world}.
Arguments info_stats {world}.
Arguments after_info {world}.
Arguments randn_finite {world}.
Arguments ok_randn {world ext cfg D}.
Arguments ok_ensemble {world ext cfg D}.
Arguments ok_sample {world ext cfg D}.
Arguments ok_reward {world ext cfg D}.
Arguments ok_measure {world ext cfg D}.

(** * The elite mean in binary32

    The tensors of the planner are float32.  [Binary32] is the mean of the
    refit at one timestep, [actions[t, topk].mean(dim=0)], in IEEE 754
    binary32 arithmetic (precision 24, maximal exponent 128, rounding to
    nearest even, as the standard library's [SpecFloat] defines it), the
    sum taken in the order of the rows.  It is used where the idealised
    scalars cannot decide a statement, because rounding matters. *)

Module Binary32.

Abbreviation float32 := SpecFloat.spec_float.

Definition prec : Z := 24.
Definition emax : Z := 128.

Definition zero : float32 := SpecFloat.S754_zero false.
Definition nan : float32 := SpecFloat.S754_nan.

Definition add : float32 -> float32 -> float32 := SpecFloat.SFadd prec emax.
Definition div : float32 -> float32 -> float32 := SpecFloat.SFdiv prec emax.

Definition of_nat (n : nat) : float32 :=
  SpecFloat.binary_normalize prec emax (Z.of_nat n) 0 false.

Definition column (c : nat) (rows : list (list float32)) : list float32 :=
  map (fun row => nth c row nan) rows.

Definition tsum (l : list float32) : float32 := fold_left add l zero.

Definition mean_list (l : list float32) : float32 :=
  div (tsum l) (of_nat (length l)).





End Binary32.

(** ** A concrete scenario

    A pure random walk: the ensemble of two members predicts a zero mean and
    a unit variance whatever its input, sampling returns the mean, the reward
    is the negated sum of the state, the measure scores every candidate 0.
    The world counts the draws from the random-number stream. *)

Module Scenario.

Definition like3 (x : scalar) (t : tensor3) : tensor3 :=
  map (map (map (fun _ => x))) t.

Definition noise (h c a : nat) (w : nat) : tensor3 :=
  map (fun t => map (fun i => map (fun j => of_nat (w + t + 2 * i + j))
                                  (seq 0 a))
                    (seq 0 c))
      (seq 0 h).

Definition ext : externals nat := {|
  ensemble_size := 2;
  randn := fun h c a w => (noise h c a w, S w);
  ensemble := fun s _ w => ((like3 zero s, like3 one s), w);
  ensemble_sample := fun dm _ w => (dm, S w);
  reward_model := fun rows w => (map (fun row => sub zero (tsum row)) rows, w);
  measure := fun dm _ w =>
               (map (fun slab => map (fun _ => zero) (nth 0 slab [])) dm, w);
  measure_get_stats := fun w => ([], w)
|}.

Definition cfg : config := {|
  action_size := 1;
  plan_horizon := 2;
  optimisation_iters := 2;
  n_candidates := 3;
  top_candidates := 2;
  use_reward := true;
  use_exploration := true;
  expl_scale := one
|}.


Definition p0 : planner nat := {| reward_stats := []; env := 0 |}.

Definition state : tensor1 := [Num 1; Num 2].

(** A state batch (two members, three candidates) in which the state of
    candidate 1 has a NaN component. *)
Definition s0_nan : tensor3 := repeat [state; [NaN; Num 2]; state] 2.

End Scenario.

(** * Properties *)

Unset Implicit Arguments.

(** ** Scalar arithmetic *)

Module ScalarFacts.

Lemma add_comm x y : add x y = add y x.
Proof. destruct x, y; simpl; try reflexivity. f_equal; lra. Qed.

Lemma add_assoc x y z : add x (add y z) = add (add x y) z.
Proof. destruct x, y, z; simpl; try reflexivity. f_equal; lra. Qed.

Lemma add_zero_l x : add zero x = x.
Proof. destruct x; simpl; try reflexivity. f_equal; lra. Qed.

Lemma add_zero_r x : add x zero = x.
Proof. rewrite add_comm. apply add_zero_l. Qed.

Lemma mul_one_l x : mul one x = x.
Proof. destruct x; simpl; try reflexivity. f_equal; lra. Qed.

Lemma le_refl x : le x x.
Proof.
unfold le, ltb. destruct x; [|reflexivity].
destruct (Rlt_dec r r); [lra | reflexivity].
Qed.

Lemma le_trans x y z : le x y -> le y z -> le x z.
Proof.
unfold le, ltb. destruct x, y, z; try discriminate; try reflexivity.
destruct (Rlt_dec r0 r), (Rlt_dec r1 r0), (Rlt_dec r1 r);
  try discriminate; try reflexivity; lra.
Qed.

Lemma ltb_false_le x y : ltb x y = false -> le y x.
Proof. exact (fun H => H). Qed.

Lemma ltb_true_le x y : ltb x y = true -> le x y.
Proof.
unfold le, ltb. destruct x, y; try discriminate; try reflexivity.
destruct (Rlt_dec r r0), (Rlt_dec r0 r); try discriminate; try reflexivity; lra.
Qed.

Lemma le_num a b : le (Num a) (Num b) <-> (a <= b)%R.
Proof.
unfold le, ltb. destruct (Rlt_dec b a); split; intros; try reflexivity;
  try discriminate; lra.
Qed.

End ScalarFacts.

Import ScalarFacts.

(** ** Lists *)

Section ListFacts.
Context {X Y Z : Type}.

Lemma zip_with_length (f : X -> Y -> Z) l1 l2 :
  length l1 = length l2 -> length (zip_with f l1 l2) = length l1.
Proof.
  intros Hl. unfold zip_with. rewrite length_map, length_combine. lia.
Qed.

Lemma zip_with_nth (f : X -> Y -> Z) l1 l2 i dx dy dz :
  i < length l1 -> i < length l2 ->
  nth i (zip_with f l1 l2) dz = f (nth i l1 dx) (nth i l2 dy).
Proof.
  revert l2 i. induction l1 as [|a l1 IH]; intros [|b l2] [|i] H1 H2;
    simpl in *; try lia; try reflexivity.
  apply IH; lia.
Qed.

Lemma Forall_zip_with (P : X -> Prop) (Q : Y -> Prop) (R : Z -> Prop)
      (f : X -> Y -> Z) l1 l2 :
  (forall a b, P a -> Q b -> R (f a b)) ->
  Forall P l1 -> Forall Q l2 -> Forall R (zip_with f l1 l2).
Proof.
  intros Hf H1. revert l2. induction H1 as [|a l1 Ha _ IH]; intros l2 H2.
  - constructor.
  - destruct H2 as [|b l2 Hb H2]; [constructor|].
    unfold zip_with in *. simpl. constructor; auto.
Qed.

Lemma set_item_length i (x : X) l : length (set_item i x l) = length l.
Proof.
  revert i. induction l as [|y l IH]; intros [|i]; simpl; auto.
Qed.

Lemma nth_set_item_eq i (x d : X) l :
  i < length l -> nth i (set_item i x l) d = x.
Proof.
  revert i. induction l as [|y l IH]; intros [|i] Hi; simpl in *;
    try lia; auto. apply IH. lia.
Qed.

Lemma nth_set_item_neq i j (x d : X) l :
  i <> j -> nth j (set_item i x l) d = nth j l d.
Proof.
  revert i j. induction l as [|y l IH]; intros [|i] [|j] Hij; simpl;
    try reflexivity; try lia. apply IH. lia.
Qed.

Lemma nth_tl (l : list X) i d : nth i (tl l) d = nth (S i) l d.
Proof. destruct l; simpl; [destruct i|]; reflexivity. Qed.

Lemma nth_ext_length (l1 l2 : list X) d :
  length l1 = length l2 ->
  (forall i, i < length l1 -> nth i l1 d = nth i l2 d) -> l1 = l2.
Proof.
  intros Hl Hn. apply nth_ext with (d := d) (d' := d); auto.
Qed.

Lemma map_nth_seq (l : list X) d :
  map (fun i => nth i l d) (seq 0 (length l)) = l.
Proof.
  apply nth_ext_length with (d := d).
  - now rewrite length_map, length_seq.
  - intros i Hi. rewrite length_map, length_seq in Hi.
    rewrite (nth_indep _ d (nth 0 l d)) by now rewrite length_map, length_seq.
    rewrite (map_nth (fun i => nth i l d) (seq 0 (length l)) 0 i).
    now rewrite seq_nth.
Qed.

Lemma chunks_length count size (l : list X) :
  length (chunks count size l) = count.
Proof.
  revert l. induction count as [|c IH]; intros l; simpl; auto.
Qed.

Lemma chunks_concat size (rows : list (list X)) :
  Forall (fun r => length r = size) rows ->
  chunks (length rows) size (concat rows) = rows.
Proof.
  induction 1 as [|r rows Hr _ IH]; simpl; [reflexivity|].
  rewrite firstn_app, skipn_app, Hr, Nat.sub_diag, firstn_all2 by lia.
  rewrite skipn_all2 by lia. simpl. rewrite app_nil_r. now rewrite IH.
Qed.

Lemma concat_length_uniform size (rows : list (list X)) :
  Forall (fun r => length r = size) rows ->
  length (concat rows) = length rows * size.
Proof.
  induction 1 as [|r rows Hr _ IH]; simpl; [reflexivity|].
  rewrite length_app, IH, Hr. lia.
Qed.

Lemma nth_concat_uniform size (rows : list (list X)) i j d :
  Forall (fun r => length r = size) rows ->
  j < size ->
  nth (i * size + j) (concat rows) d = nth j (nth i rows []) d.
Proof.
  intros Hu Hj. revert i. induction Hu as [|r rows Hr _ IH]; intros i.
  - simpl. destruct (i * size + j), i, j; reflexivity.
  - destruct i as [|i]; simpl.
    + rewrite app_nth1 by lia. reflexivity.
    + rewrite app_nth2 by lia.
      replace (size + i * size + j - length r) with (i * size + j) by lia.
      apply IH.
Qed.
End ListFacts.

Lemma remove_NoDup (x : nat) l : NoDup l -> NoDup (remove Nat.eq_dec x l).
Proof.
  induction 1 as [|y l Hy _ IH]; simpl; [constructor|].
  destruct (Nat.eq_dec x y); [assumption|].
  constructor; [|assumption].
  intros Hin. apply in_remove in Hin. tauto.
Qed.

Lemma remove_length_in (x : nat) l :
  NoDup l -> In x l -> S (length (remove Nat.eq_dec x l)) = length l.
Proof.
  induction 1 as [|y l Hy Hnd IH]; simpl; [tauto|].
  intros [-> | Hin].
  - destruct (Nat.eq_dec x x); [|congruence].
    now rewrite notin_remove.
  - destruct (Nat.eq_dec x y) as [->|]; [tauto|].
    simpl. now rewrite IH.
Qed.

(** ** Top-k selection *)

Lemma argmax_in vals best cands : In (argmax vals best cands) (best :: cands).
Proof.
  revert best. induction cands as [|j rest IH]; intros best; simpl.
  - now left.
  - destruct (ltb _ _).
    + right. apply IH.
    + destruct (IH best) as [H|H]; [now left | now right; right].
Qed.

Lemma argmax_ge vals best cands j :
  In j (best :: cands) -> le (val vals j) (val vals (argmax vals best cands)).
Proof.
  revert best j. induction cands as [|c rest IH]; intros best j Hin; simpl.
  - destruct Hin as [->|[]]. apply le_refl.
  - fold (val vals best). fold (val vals c).
    destruct (ltb (val vals best) (val vals c)) eqn:Hlt.
    + destruct Hin as [->|Hin]; [|now apply IH].
      apply le_trans with (val vals c).
      * now apply ltb_true_le.
      * apply IH. now left.
    + destruct Hin as [->|[->|Hin]].
      * apply IH. now left.
      * apply le_trans with (val vals best); [exact Hlt|].
        apply IH. now left.
      * apply IH. now right.
Qed.

Lemma select_top_spec vals k : forall cands,
  NoDup cands -> k <= length cands ->
  length (select_top k vals cands) = k /\
  NoDup (select_top k vals cands) /\
  incl (select_top k vals cands) cands /\
  (forall i j, In i (select_top k vals cands) -> In j cands ->
               ~ In j (select_top k vals cands) ->
               le (val vals j) (val vals i)).
Proof.
  induction k as [|k IH]; intros cands Hnd Hk.
  - simpl. repeat split; try constructor.
    + intros x [].
    + intros i j [].
  - destruct cands as [|c rest]; [simpl in Hk; lia|].
    cbn [select_top].
    set (i0 := argmax vals c rest).
    assert (Hi0 : In i0 (c :: rest)) by apply argmax_in.
    set (cands' := remove Nat.eq_dec i0 (c :: rest)).
    assert (Hnd' : NoDup cands') by now apply remove_NoDup.
    assert (Hlen : S (length cands') = length (c :: rest))
      by now apply remove_length_in.
    destruct (IH cands' Hnd' ltac:(simpl in *; lia)) as (Hl & Hn & Hi & Hd).
    repeat split.
    + simpl. now rewrite Hl.
    + constructor; [|assumption].
      intros Hin. apply Hi in Hin. now apply remove_In in Hin.
    + intros x [<-|Hx]; [assumption|].
      apply Hi in Hx. now apply in_remove in Hx.
    + intros i j [<-|Hin] Hj Hnj.
      * now apply argmax_ge.
      * apply Hd; trivial.
        -- apply in_in_remove; [|assumption].
           intros ->. apply Hnj. now left.
        -- intros Hj'. apply Hnj. now right.
Qed.

Lemma unselected_In idx n j :
  In j (unselected idx n) <-> j < n /\ ~ In j idx.
Proof.
  unfold unselected. rewrite filter_In, in_seq, negb_true_iff.
  split; intros [Hj Hn]; split; try lia.
  - intros Hin. assert (existsb (Nat.eqb j) idx = true); [|congruence].
    apply existsb_exists. exists j. split; [assumption | apply Nat.eqb_refl].
  - destruct (existsb (Nat.eqb j) idx) eqn:Hex; [|reflexivity].
    apply existsb_exists in Hex. destruct Hex as (x & Hx & Heq).
    apply Nat.eqb_eq in Heq. subst x. tauto.
Qed.

Lemma selected_partition idx n :
  NoDup idx -> (forall i, In i idx -> i < n) ->
  Permutation (idx ++ unselected idx n) (seq 0 n).
Proof.
  intros Hnd Hr. apply NoDup_Permutation.
  - apply NoDup_app; [assumption | apply NoDup_filter, seq_NoDup |].
    intros a Ha Hb. apply unselected_In in Hb. tauto.
  - apply seq_NoDup.
  - intros j. rewrite in_app_iff, unselected_In, in_seq.
    split.
    + intros [Hj | [Hj _]]; [apply Hr in Hj|]; lia.
    + intros Hj. destruct (in_dec Nat.eq_dec j idx); [now left|right].
      split; [lia | assumption].
Qed.

Lemma topk_ok vals k :
  k <= length vals ->
  exists idx,
    topk vals k = Ok idx /\ length idx = k /\ NoDup idx /\
    (forall i, In i idx -> i < length vals) /\
    (forall i j, In i idx -> j < length vals -> ~ In j idx ->
                 le (val vals j) (val vals i)).
Proof.
  intros Hk. unfold topk.
  destruct (k <=? length vals) eqn:Hle; [|apply Nat.leb_gt in Hle; lia].
  destruct (select_top_spec vals k (seq 0 (length vals)))
    as (Hl & Hn & Hi & Hd).
  - apply seq_NoDup.
  - now rewrite length_seq.
  - eexists. split; [reflexivity|]. repeat split; trivial.
    + intros i Hin. apply Hi in Hin. apply in_seq in Hin. lia.
    + intros i j Hin Hj Hnj. apply Hd; trivial. apply in_seq. lia.
Qed.

(** ** NaN normalisation *)

Lemma nan_to_zero_map returns :
  nan_to_zero returns = map (fun x => if isnan x then zero else x) returns.
Proof.
  unfold nan_to_zero. induction returns as [|x l IH]; simpl; [reflexivity|].
  now rewrite IH.
Qed.

Lemma nan_to_zero_length returns :
  length (nan_to_zero returns) = length returns.
Proof. rewrite nan_to_zero_map. apply length_map. Qed.

Lemma nan_to_zero_nth returns i :
  i < length returns ->
  val (nan_to_zero returns) i
  = if isnan (val returns i) then zero else val returns i.
Proof.
  intros Hi. unfold val. rewrite nan_to_zero_map.
  set (f := fun x => if isnan x then zero else x).
  rewrite (nth_indep _ NaN (f NaN)) by now rewrite length_map.
  apply map_nth.
Qed.

Lemma nan_to_zero_num returns : all_num1 (nan_to_zero returns).
Proof.
  rewrite nan_to_zero_map. unfold all_num1. apply Forall_map.
  apply Forall_forall. intros [r|] _; exact I.
Qed.

Lemma num_val vals i :
  all_num1 vals -> i < length vals -> exists r, val vals i = Num r.
Proof.
  intros Hn Hi. unfold all_num1 in Hn. rewrite Forall_forall in Hn.
  specialize (Hn (val vals i) (nth_In _ _ Hi)).
  destruct (val vals i) as [r|]; [now exists r | destruct Hn].
Qed.

(** ** The planner monad *)

Section MonadFacts.
Context {world : Type}.
Implicit Types p : planner world.

Lemma bind_ok {X Y} (c : M world X) (k : X -> M world Y) p a p' :
  c p = (Ok a, p') -> bind c k p = k a p'.
Proof. unfold bind. now intros ->. Qed.

Lemma bind_raise {X Y} (c : M world X) (k : X -> M world Y) p e p' :
  c p = (Raise e, p') -> bind c k p = (Raise e, p').
Proof. unfold bind. now intros ->. Qed.

Lemma call_run {X} (f : world -> X * world) p :
  call f p = (Ok (fst (f (env p))), set_env p (snd (f (env p)))).
Proof. unfold call. now destruct (f (env p)). Qed.

Lemma set_env_set_env p w w' : set_env (set_env p w) w' = set_env p w'.
Proof. reflexivity. Qed.

Lemma set_env_env p : set_env p (env p) = p.
Proof. now destruct p. Qed.

Lemma for_each_app {X} (l1 l2 : list nat) (body : nat -> X -> M world X) x p :
  for_each (l1 ++ l2) body x p
  = bind (for_each l1 body x) (for_each l2 body) p.
Proof.
  revert x p. induction l1 as [|t l1 IH]; intros x p; simpl.
  - reflexivity.
  - unfold bind. destruct (body t x p) as [[a|e] p']; [|reflexivity].
    rewrite IH. reflexivity.
Qed.
End MonadFacts.

(** ** Replication of the candidate actions over the ensemble *)

Lemma replicate_actions_nth e actions t :
  t < length actions ->
  nth t (replicate_actions e actions) [] = repeat (nth t actions []) e.
Proof.
  intros Ht. unfold replicate_actions, permute_1023.
  set (f := fun i => map (fun member : tensor3 => nth i member []) (repeat actions e)).
  rewrite (nth_indep _ [] (f 0)) by now rewrite length_map, length_seq.
  rewrite (map_nth f), seq_nth by assumption. simpl. unfold f.
  rewrite map_repeat. reflexivity.
Qed.

Lemma replicate_actions_length e actions :
  length (replicate_actions e actions) = length actions.
Proof. unfold replicate_actions, permute_1023. now rewrite length_map, length_seq. Qed.

(** ** Shapes *)

Lemma shape1_zip (f : scalar -> scalar -> scalar) a b n :
  shape1 n a -> shape1 n b -> shape1 n (zip_with f a b).
Proof. unfold shape1. intros Ha Hb. rewrite zip_with_length; congruence. Qed.

Lemma shape2_zip (f : scalar -> scalar -> scalar) a b n m :
  shape2 n m a -> shape2 n m b -> shape2 n m (zip_with (zip_with f) a b).
Proof.
  intros [Ha Fa] [Hb Fb]. split.
  - rewrite zip_with_length; [exact Ha | exact (eq_trans Ha (eq_sym Hb))].
  - apply (Forall_zip_with (shape1 m) (shape1 m)); trivial.
    intros x y. apply shape1_zip.
Qed.

Lemma shape3_zip (f : scalar -> scalar -> scalar) a b n m k :
  shape3 n m k a -> shape3 n m k b ->
  shape3 n m k (zip_with (zip_with (zip_with f)) a b).
Proof.
  intros [Ha Fa] [Hb Fb]. split.
  - rewrite zip_with_length; [exact Ha | exact (eq_trans Ha (eq_sym Hb))].
  - apply (Forall_zip_with (shape2 m k) (shape2 m k)); trivial.
    intros x y. apply shape2_zip.
Qed.

Lemma shape3_nth t n m k i :
  shape3 n m k t -> i < n -> shape2 m k (nth i t []).
Proof.
  intros [Hl Hf] Hi. rewrite Forall_forall in Hf. apply Hf, nth_In. lia.
Qed.

Lemma shape2_nth t n m i :
  shape2 n m t -> i < n -> shape1 m (nth i t []).
Proof.
  intros [Hl Hf] Hi. rewrite Forall_forall in Hf. apply Hf, nth_In. lia.
Qed.

Lemma shape_repeat {X} (P : X -> Prop) x n : P x -> Forall P (repeat x n).
Proof. intros Hx. apply Forall_forall. intros y Hy. now apply repeat_spec in Hy as ->. Qed.

Lemma nth_map_seq {X} (f : nat -> X) m t d :
  t < m -> nth t (map f (seq 0 m)) d = f t.
Proof.
  intros Ht. rewrite (nth_indep _ d (f 0)) by now rewrite length_map, length_seq.
  now rewrite map_nth, seq_nth.
Qed.

Lemma set_item_map_seq {X} (f : nat -> X) i x a m :
  set_item i x (map f (seq a m))
  = map (fun t => if t =? a + i then x else f t) (seq a m).
Proof.
  revert a i. induction m as [|m IH]; intros a i; simpl;
    [now destruct i|].
  destruct i as [|i]; simpl.
  - rewrite Nat.add_0_r, Nat.eqb_refl. f_equal.
    apply map_ext_in. intros t Ht. apply in_seq in Ht.
    destruct (t =? a) eqn:Heq; [apply Nat.eqb_eq in Heq; lia | reflexivity].
  - destruct (a =? a + S i) eqn:Heq; [apply Nat.eqb_eq in Heq; lia|].
    f_equal. rewrite IH. apply map_ext. intros t.
    now replace (S a + i) with (a + S i) by lia.
Qed.

Lemma repeat_map_seq {X} (x : X) m : repeat x m = map (fun _ => x) (seq 0 m).
Proof.
  generalize 0. induction m as [|m IH]; intros a; simpl; [reflexivity|].
  now rewrite <- IH.
Qed.

(** ** The rollout engine *)

Section RolloutFacts.
Variable world : Type.
Variable ext : externals world.
Variable cfg : config.

Local Abbreviation E := (ensemble_size ext).
Local Abbreviation H := (plan_horizon cfg).
Local Abbreviation trace_states := (trace_states ext cfg).
Local Abbreviation trace_means := (trace_means ext cfg).
Local Abbreviation trace_vars := (trace_vars ext cfg).
Local Abbreviation ensemble_shapes := (ensemble_shapes ext cfg).
Local Abbreviation sample_shapes := (sample_shapes ext cfg).

Lemma recurrence_S s0 actions t w :
  recurrence ext s0 actions (S t) w
  = let s := state_at ext s0 actions w t in
    let r := ensemble ext s (repeat (nth t actions []) E)
                      (world_at ext s0 actions w t) in
    let r' := ensemble_sample ext (fst (fst r)) (snd (fst r)) (snd r) in
    ((tadd3 s (fst r'), fst (fst r), snd (fst r)), snd r').
Proof.
  unfold state_at, world_at. simpl.
  destruct (recurrence ext s0 actions t w) as [[[s a] b] w1]. simpl.
  destruct (ensemble ext s _ w1) as [[dm dv] w2]. simpl.
  now destruct (ensemble_sample ext dm dv w2).
Qed.

Lemma state_at_S s0 actions t w :
  state_at ext s0 actions w (S t)
  = let s := state_at ext s0 actions w t in
    let r := ensemble ext s (repeat (nth t actions []) E)
                      (world_at ext s0 actions w t) in
    tadd3 s (fst (ensemble_sample ext (fst (fst r)) (snd (fst r)) (snd r))).
Proof. unfold state_at at 1. now rewrite recurrence_S. Qed.

Lemma delta_mean_at_S s0 actions t w :
  delta_mean_at ext s0 actions w (S t)
  = fst (fst (ensemble ext (state_at ext s0 actions w t)
                       (repeat (nth t actions []) E)
                       (world_at ext s0 actions w t))).
Proof. unfold delta_mean_at. now rewrite recurrence_S. Qed.

Lemma delta_var_at_S s0 actions t w :
  delta_var_at ext s0 actions w (S t)
  = snd (fst (ensemble ext (state_at ext s0 actions w t)
                       (repeat (nth t actions []) E)
                       (world_at ext s0 actions w t))).
Proof. unfold delta_var_at. now rewrite recurrence_S. Qed.

Lemma world_at_S s0 actions t w :
  world_at ext s0 actions w (S t)
  = let r := ensemble ext (state_at ext s0 actions w t)
                      (repeat (nth t actions []) E)
                      (world_at ext s0 actions w t) in
    snd (ensemble_sample ext (fst (fst r)) (snd (fst r)) (snd r)).
Proof. unfold world_at at 1. now rewrite recurrence_S. Qed.

Lemma trace_states_nth s0 actions w n :
  n <= H -> nth n (trace_states s0 actions w n) [] = state_at ext s0 actions w n.
Proof.
  intros Hn. unfold trace_states. rewrite nth_map_seq by lia.
  now rewrite Nat.leb_refl.
Qed.

Lemma trace_step (f : nat -> tensor3) n :
  set_item (n + 1) (f (S n))
           (map (fun t => if t <=? n then f t else []) (seq 0 (H + 1)))
  = map (fun t => if t <=? S n then f t else []) (seq 0 (H + 1)).
Proof.
  rewrite set_item_map_seq. apply map_ext. intros t. simpl.
  destruct (t =? n + 1) eqn:Heq.
  - apply Nat.eqb_eq in Heq. subst t.
    replace (n + 1) with (S n) by lia. now rewrite Nat.leb_refl.
  - apply Nat.eqb_neq in Heq.
    destruct (t <=? n) eqn:H1, (t <=? S n) eqn:H2; trivial;
      [apply Nat.leb_le in H1; apply Nat.leb_gt in H2
      |apply Nat.leb_gt in H1; apply Nat.leb_le in H2]; lia.
Qed.

Lemma rollout_step_run actions t states means vars p :
  rollout_step ext actions t (states, means, vars) p
  = let r := ensemble ext (nth t states []) (nth t actions []) (env p) in
    let r' := ensemble_sample ext (fst (fst r)) (snd (fst r)) (snd r) in
    (Ok (set_item (t + 1) (tadd3 (nth t states []) (fst r')) states,
         set_item (t + 1) (fst (fst r)) means,
         set_item (t + 1) (snd (fst r)) vars),
     set_env p (snd r')).
Proof.
  unfold rollout_step, bind, call, ret.
  destruct (ensemble ext _ _ (env p)) as [[dm dv] w1]. simpl.
  now destruct (ensemble_sample ext dm dv w1).
Qed.

Lemma rollout_loop s0 actions p n :
  n <= H -> H <= length actions ->
  for_each (seq 0 n) (rollout_step ext (replicate_actions E actions))
           (set_item 0 s0 (repeat [] (H + 1)),
            repeat [] (H + 1), repeat [] (H + 1)) p
  = (Ok (trace_states s0 actions (env p) n,
         trace_means s0 actions (env p) n,
         trace_vars s0 actions (env p) n),
     set_env p (world_at ext s0 actions (env p) n)).
Proof.
  intros Hn Ha. induction n as [|n IH].
  - cbn [seq for_each]. unfold ret, world_at. cbn [recurrence snd].
    rewrite set_env_env. do 3 f_equal; [f_equal|].
    + unfold trace_states. rewrite repeat_map_seq, set_item_map_seq.
      apply map_ext. intros [|t]; reflexivity.
    + unfold trace_means. rewrite repeat_map_seq.
      apply map_ext. intros [|t]; reflexivity.
    + unfold trace_vars. rewrite repeat_map_seq.
      apply map_ext. intros [|t]; reflexivity.
  - rewrite seq_S, for_each_app.
    rewrite (bind_ok _ _ _ _ _ (IH ltac:(lia))).
    cbn [Nat.add for_each].
    rewrite (bind_ok _ _ _ _ _ (rollout_step_run _ _ _ _ _ _)).
    unfold ret. cbn [env set_env].
    rewrite !trace_states_nth, replicate_actions_nth by lia.
    unfold trace_states, trace_means, trace_vars. rewrite <- !trace_step.
    rewrite world_at_S, state_at_S, delta_mean_at_S, delta_var_at_S.
    cbv zeta.
    reflexivity.
Qed.

(** The rollout as a whole: position [t] of each output is the value the
    recurrence gives after [t + 1] steps. *)
Lemma perform_rollout_run s0 actions p :
  0 < H -> H <= length actions ->
  perform_rollout ext cfg s0 actions p
  = (Ok (map (state_at ext s0 actions (env p)) (seq 1 H),
         map (delta_var_at ext s0 actions (env p)) (seq 1 H),
         map (delta_mean_at ext s0 actions (env p)) (seq 1 H)),
     set_env p (world_at ext s0 actions (env p) H)).
Proof.
  intros HH Ha. unfold perform_rollout.
  rewrite (bind_ok _ _ _ _ _ (rollout_loop s0 actions p H (le_n _) Ha)).
  assert (Htl : forall f : nat -> tensor3,
    tl (map (fun t => if t <=? H then f t else []) (seq 0 (H + 1)))
    = map f (seq 1 H)).
  { intros f. replace (H + 1) with (S H) by lia. cbn [seq map tl].
    apply map_ext_in. intros t Ht. apply in_seq in Ht.
    destruct (t <=? H) eqn:Hle; [reflexivity|].
    apply Nat.leb_gt in Hle. lia. }
  unfold trace_states, trace_means, trace_vars. rewrite !Htl.
  destruct H as [|h] eqn:EH; [lia|].
  reflexivity.
Qed.
Local Abbreviation A := (action_size cfg).
Local Abbreviation C := (n_candidates cfg).

Lemma replicated_slice_shape actions t :
  shape3 H C A actions -> t < H ->
  shape3 E C A (repeat (nth t actions []) E).
Proof.
  intros Hs Ht. split; [apply repeat_length|].
  apply shape_repeat. now apply shape3_nth with (n := H).
Qed.

Lemma recurrence_shapes D s0 actions w :
  ensemble_shapes D -> sample_shapes D ->
  shape3 E C D s0 -> shape3 H C A actions ->
  forall t, t <= H ->
    shape3 E C D (state_at ext s0 actions w t) /\
    (0 < t -> shape3 E C D (delta_mean_at ext s0 actions w t) /\
              shape3 E C D (delta_var_at ext s0 actions w t)).
Proof.
  intros He Hsm Hs0 Ha. induction t as [|t IH]; intros Ht.
  - split; [exact Hs0 | lia].
  - destruct (IH ltac:(lia)) as [Hst _].
    rewrite state_at_S, delta_mean_at_S, delta_var_at_S. cbv zeta.
    set (r := ensemble ext _ _ _).
    destruct (He (state_at ext s0 actions w t) (repeat (nth t actions []) E)
                 (world_at ext s0 actions w t) Hst
                 (replicated_slice_shape actions t Ha ltac:(lia)))
      as [Hm Hv].
    fold r in Hm, Hv. split; [|now split].
    apply shape3_zip; [assumption|]. now apply Hsm.
Qed.

End RolloutFacts.


(** ** Views of row-major storage *)

Lemma map_as_seq {X Y} (f : X -> Y) (l : list X) d :
  map f l = map (fun i => f (nth i l d)) (seq 0 (length l)).
Proof.
  rewrite <- (map_nth_seq l d) at 1. now rewrite map_map.
Qed.

Lemma nth_firstn_skipn {X} (l : list X) k d j dflt :
  j < d -> nth j (firstn d (skipn k l)) dflt = nth (k + j) l dflt.
Proof.
  intros Hj. rewrite nth_firstn.
  destruct (j <? d) eqn:Hlt; [|apply Nat.ltb_ge in Hlt; lia].
  apply nth_skipn.
Qed.

Lemma chunks_nth {X} count size (l : list X) i :
  i < count ->
  nth i (chunks count size l) [] = firstn size (skipn (i * size) l).
Proof.
  revert l i. induction count as [|n IH]; intros l i Hi; [lia|].
  destruct i as [|i]; simpl; [reflexivity|].
  rewrite IH by lia. now rewrite skipn_skipn, (Nat.add_comm (i * size)).
Qed.

Lemma concat_concat_map {X} (t : list (list (list X))) :
  concat (concat t) = concat (map (@concat X) t).
Proof.
  induction t as [|a t IH]; simpl; [reflexivity|].
  now rewrite concat_app, IH.
Qed.

Lemma view2_rows d (rows : tensor2) :
  0 < d -> Forall (shape1 d) rows -> view2 d (concat rows) = Ok rows.
Proof.
  intros Hd Hr. unfold view2.
  destruct (d =? 0) eqn:Hz; [apply Nat.eqb_eq in Hz; lia|].
  rewrite (concat_length_uniform d) by exact Hr.
  rewrite Nat.Div0.mod_mul, Nat.eqb_refl, Nat.div_mul by lia.
  now rewrite chunks_concat.
Qed.

Lemma view3_identity n m k (t : tensor3) :
  shape3 n m k t -> view3 n m k (flatten3 t) = Ok t.
Proof.
  intros [Hl Hf]. unfold view3, flatten3.
  assert (Hrows : Forall (fun r : tensor1 => length r = m * k) (map (@concat _) t)).
  { apply Forall_map. revert Hf. apply Forall_impl. intros slab [Hm Hk].
    rewrite (concat_length_uniform k) by exact Hk. f_equal. exact Hm. }
  rewrite concat_concat_map, (concat_length_uniform (m * k)) by exact Hrows.
  rewrite length_map, Hl, Nat.mul_assoc, Nat.eqb_refl.
  rewrite <- Hl at 1. rewrite <- (length_map (@concat _) t).
  rewrite chunks_concat by exact Hrows. rewrite map_map.
  f_equal. rewrite <- (map_id t) at 2. apply map_ext_in.
  intros slab Hin. rewrite Forall_forall in Hf. destruct (Hf slab Hin) as [Hm Hk].
  rewrite <- Hm. now apply chunks_concat.
Qed.

Lemma view3_entry n m k (data : tensor1) i j c :
  i < n -> j < m -> c < k ->
  nth c (nth j (nth i (map (chunks m k) (chunks n (m * k) data)) []) []) NaN
  = nth ((i * m + j) * k + c) data NaN.
Proof.
  intros Hi Hj Hc.
  rewrite (nth_indep _ [] (chunks m k []))
    by now rewrite length_map, chunks_length.
  rewrite map_nth, chunks_nth by assumption.
  rewrite chunks_nth by assumption.
  rewrite nth_firstn_skipn by assumption.
  rewrite nth_firstn_skipn by nia.
  f_equal. lia.
Qed.

(** ** Sums, means and deviations *)

Lemma fold_add_acc l a : fold_left add l a = add a (tsum l).
Proof.
  unfold tsum. revert a. induction l as [|x l IH]; intros a; cbn [fold_left].
  - now rewrite add_zero_r.
  - rewrite (IH (add a x)), (IH (add zero x)), add_zero_l. apply eq_sym, add_assoc.
Qed.

Lemma tsum_cons x l : tsum (x :: l) = add x (tsum l).
Proof. unfold tsum at 1. cbn [fold_left]. rewrite fold_add_acc. now rewrite add_zero_l. Qed.

Lemma tsum_reals rs : tsum (map Num rs) = Num (rsum rs).
Proof.
  induction rs as [|r rs IH]; [reflexivity|].
  cbn [map]. now rewrite tsum_cons, IH.
Qed.

Lemma div_count r n : 0 < n -> div (Num r) (of_nat n) = Num (r / INR n).
Proof.
  intros Hn. unfold div, of_nat.
  destruct (Req_dec_T (INR n) 0) as [Hz|]; [|reflexivity].
  exfalso. revert Hz. apply not_0_INR. lia.
Qed.

Lemma mean_reals rs :
  rs <> [] -> mean_list (map Num rs) = Num (rsum rs / INR (length rs)).
Proof.
  intros Hne. unfold mean_list. rewrite tsum_reals, length_map.
  apply div_count. destruct rs; [congruence | simpl; lia].
Qed.

Lemma sq_dev_reals m rs :
  map (sq_dev (Num m)) (map Num rs)
  = map Num (map (fun r => (r - m) * (r - m))%R rs).
Proof. rewrite !map_map. reflexivity. Qed.

Lemma rsum_repeat x n : rsum (repeat x n) = (INR n * x)%R.
Proof.
  induction n as [|n IH]; [simpl; lra|].
  rewrite S_INR. cbn [repeat rsum fold_right]. fold (rsum (repeat x n)).
  rewrite IH. lra.
Qed.

Lemma constant_list {X} (l : list X) x :
  (forall y, In y l -> y = x) -> l = repeat x (length l).
Proof.
  induction l as [|y l IH]; intros Hc; simpl; [reflexivity|].
  rewrite (Hc y (or_introl eq_refl)). f_equal. apply IH.
  intros z Hz. apply Hc. now right.
Qed.

Lemma constant_mean_std x l :
  l <> [] -> (forall y, In y l -> y = Num x) ->
  mean_list l = Num x /\ std_list false l = zero.
Proof.
  intros Hne Hc. rewrite (constant_list l (Num x) Hc).
  assert (Hn : 0 < length l) by (destruct l; [congruence | simpl; lia]).
  set (n := length l) in *. rewrite <- (map_repeat x n Num).
  assert (Hnz : INR n <> 0%R) by (apply not_0_INR; lia).
  assert (Hm : mean_list (map Num (repeat x n)) = Num x).
  { rewrite mean_reals by (destruct n; [lia | discriminate]).
    rewrite rsum_repeat, repeat_length. f_equal. now field. }
  split; [exact Hm|].
  unfold std_list. rewrite Hm, sq_dev_reals, tsum_reals, length_map, repeat_length.
  rewrite div_count by assumption. rewrite map_repeat, rsum_repeat.
  replace (INR n * ((x - x) * (x - x)) / INR n)%R with 0%R by now field.
  unfold Scalar.sqrt, zero. destruct (Rlt_dec 0 0); [lra|].
  now rewrite sqrt_0.
Qed.

(** ** Entries and shapes of the planner's tensors *)

Lemma nth_map_in {X Y} (g : X -> Y) l t dx dy :
  t < length l -> nth t (map g l) dy = g (nth t l dx).
Proof.
  intros Ht. rewrite (nth_indep _ dy (g dx)) by now rewrite length_map.
  apply map_nth.
Qed.

Lemma reduce_dim0_nth f width rows c :
  c < width -> nth c (reduce_dim0 f width rows) NaN = f (column c rows).
Proof. intros Hc. unfold reduce_dim0. now rewrite nth_map_seq. Qed.

Lemma reduce_dim0_length f width rows : length (reduce_dim0 f width rows) = width.
Proof. unfold reduce_dim0. now rewrite length_map, length_seq. Qed.

Lemma keep_shape f width (t : tensor3) :
  shape3 (length t) 1 width (map (fun slab => [reduce_dim0 f width slab]) t).
Proof.
  split; [apply length_map|]. apply Forall_map, Forall_forall. intros slab _.
  split; [reflexivity|]. constructor; [apply reduce_dim0_length | constructor].
Qed.

Lemma keep_entry f width (t : tensor3) i a :
  i < length t -> a < width ->
  entry3 (map (fun slab => [reduce_dim0 f width slab]) t) i 0 a
  = f (column a (nth i t [])).
Proof.
  intros Hi Ha. unfold entry3.
  rewrite (nth_map_in _ t i [] []) by assumption. simpl.
  now apply reduce_dim0_nth.
Qed.

Lemma column_length a (slab : tensor2) : length (column a slab) = length slab.
Proof. apply length_map. Qed.

Lemma zip3_entry (f : scalar -> scalar -> scalar) a b n m k i j l :
  shape3 n m k a -> shape3 n m k b -> i < n -> j < m -> l < k ->
  entry3 (zip_with (zip_with (zip_with f)) a b) i j l
  = f (entry3 a i j l) (entry3 b i j l).
Proof.
  intros Sa Sb Hi Hj Hl. unfold entry3.
  pose proof (shape3_nth a n m k i Sa Hi) as Sa2.
  pose proof (shape3_nth b n m k i Sb Hi) as Sb2.
  pose proof (shape2_nth _ m k j Sa2 Hj) as Sa1.
  pose proof (shape2_nth _ m k j Sb2 Hj) as Sb1.
  destruct Sa as [La _], Sb as [Lb _], Sa2 as [La2 _], Sb2 as [Lb2 _].
  unfold shape1 in *.
  rewrite (zip_with_nth _ a b i [] [] []) by lia.
  rewrite (zip_with_nth _ _ _ j [] [] []) by lia.
  now rewrite (zip_with_nth _ _ _ l NaN NaN NaN) by lia.
Qed.

Lemma expand_dim1_shape c t n k :
  shape3 n 1 k t -> shape3 n c k (expand_dim1 c t).
Proof.
  intros [Hl Hf]. split; [unfold expand_dim1; now rewrite length_map|].
  unfold expand_dim1. apply Forall_map. revert Hf. apply Forall_impl.
  intros slab [Hs Hr]. destruct slab as [|row [|]]; try discriminate.
  split; [apply repeat_length|]. apply shape_repeat. now inversion Hr.
Qed.

Lemma expand_dim1_entry c t n k i j l :
  shape3 n 1 k t -> i < n -> j < c ->
  entry3 (expand_dim1 c t) i j l = entry3 t i 0 l.
Proof.
  intros St Hi Hj. unfold entry3, expand_dim1.
  pose proof (shape3_nth t n 1 k i St Hi) as [Hs _].
  destruct St as [Hl _].
  rewrite (nth_map_in _ t i [] []) by lia.
  destruct (nth i t []) as [|row [|]]; try discriminate. simpl.
  now rewrite nth_repeat_lt.
Qed.

Lemma full3_shape n m k x : shape3 n m k (full3 n m k x).
Proof.
  unfold full3. split; [apply repeat_length|]. apply shape_repeat.
  split; [apply repeat_length|]. apply shape_repeat. apply repeat_length.
Qed.

Lemma full3_entry n m k x i j l :
  i < n -> j < m -> l < k -> entry3 (full3 n m k x) i j l = x.
Proof.
  intros Hi Hj Hl. unfold entry3, full3. now rewrite !nth_repeat_lt.
Qed.

Lemma entry3_ext a b n m k :
  shape3 n m k a -> shape3 n m k b ->
  (forall i j l, i < n -> j < m -> l < k -> entry3 a i j l = entry3 b i j l) ->
  a = b.
Proof.
  intros Sa Sb He. pose proof Sa as [La _]. pose proof Sb as [Lb _].
  apply nth_ext_length with (d := []); [congruence|]. intros i Hi.
  pose proof (shape3_nth a n m k i Sa ltac:(lia)) as Sa2.
  pose proof (shape3_nth b n m k i Sb ltac:(lia)) as Sb2.
  pose proof Sa2 as [La2 _]. pose proof Sb2 as [Lb2 _].
  apply nth_ext_length with (d := []); [congruence|]. intros j Hj.
  pose proof (shape2_nth _ m k j Sa2 ltac:(lia)) as Sa1.
  pose proof (shape2_nth _ m k j Sb2 ltac:(lia)) as Sb1.
  unfold shape1 in *.
  apply nth_ext_length with (d := NaN); [congruence|]. intros l Hl.
  apply He; lia.
Qed.

(** ** Sampling, selection and refit *)

Section RefitFacts.
Variable cfg : config.

Local Abbreviation A := (action_size cfg).
Local Abbreviation H := (plan_horizon cfg).
Local Abbreviation C := (n_candidates cfg).
Local Abbreviation K := (top_candidates cfg).

Lemma sample_actions_shape mean std noise :
  shape3 H 1 A mean -> shape3 H 1 A std -> shape3 H C A noise ->
  shape3 H C A (sample_actions cfg mean std noise).
Proof.
  intros Sm Ss Sn. unfold sample_actions, tadd3, tmul3.
  apply shape3_zip; [now apply expand_dim1_shape|].
  apply shape3_zip; [now apply expand_dim1_shape | assumption].
Qed.

Lemma sample_actions_entry mean std noise t c a :
  shape3 H 1 A mean -> shape3 H 1 A std -> shape3 H C A noise ->
  t < H -> c < C -> a < A ->
  entry3 (sample_actions cfg mean std noise) t c a
  = add (entry3 mean t 0 a) (mul (entry3 std t 0 a) (entry3 noise t c a)).
Proof.
  intros Sm Ss Sn Ht Hc Ha. unfold sample_actions, tadd3, tmul3.
  rewrite (zip3_entry add _ _ H C A); trivial.
  - rewrite (zip3_entry mul _ _ H C A); trivial.
    + now rewrite !(expand_dim1_entry C _ H A).
    + now apply expand_dim1_shape.
  - now apply expand_dim1_shape.
  - apply shape3_zip; [now apply expand_dim1_shape | assumption].
Qed.

(** The first round samples around mean 0 with deviation 1: the
    candidate actions are the noise itself. *)
Lemma sample_actions_initial noise :
  shape3 H C A noise ->
  sample_actions cfg (full3 H 1 A zero) (full3 H 1 A one) noise = noise.
Proof.
  intros Sn. apply entry3_ext with (n := H) (m := C) (k := A); trivial.
  - apply sample_actions_shape; trivial; apply full3_shape.
  - intros t c a Ht Hc Ha.
    rewrite sample_actions_entry; trivial; try apply full3_shape.
    rewrite !full3_entry by lia. now rewrite mul_one_l, add_zero_l.
Qed.

Lemma gather_shape idx actions n :
  shape3 H C A actions -> length idx = n -> (forall i, In i idx -> i < C) ->
  shape3 H n A (gather_dim1 idx actions).
Proof.
  intros [Hl Hf] Hn Hr. unfold gather_dim1. split; [now rewrite length_map|].
  apply Forall_map. revert Hf. apply Forall_impl. intros slab Hs.
  split; [now rewrite length_map|]. apply Forall_map, Forall_forall.
  intros i Hi. apply shape2_nth with (n := C); auto.
Qed.

Lemma select_elite_run idx actions :
  shape3 H C A actions -> length idx = K -> (forall i, In i idx -> i < C) ->
  select_elite cfg idx actions = Ok (gather_dim1 idx actions).
Proof.
  intros Sa Hl Hr. unfold select_elite. apply view3_identity.
  now apply gather_shape.
Qed.

Lemma refit_shape best :
  length best = H ->
  shape3 H 1 A (fst (refit cfg best)) /\ shape3 H 1 A (snd (refit cfg best)).
Proof.
  intros <-. split; apply keep_shape.
Qed.

Lemma nonneg_is_num x : nonneg x -> is_num x.
Proof. now destruct x. Qed.

Lemma column_nonempty a (slab : tensor2) n m :
  shape2 n m slab -> 0 < n -> column a slab <> [].
Proof.
  intros [Hl _] Hn Hc. apply (f_equal (@length _)) in Hc.
  rewrite column_length in Hc. simpl in Hc. lia.
Qed.

End RefitFacts.

(** ** The optimisation loop *)

Section MonadSteps.
Context {world : Type}.

Lemma bind_lift_ok {X Y} (a : X) (k : X -> M world Y) p :
  bind (lift (Ok a)) k p = k a p.
Proof. reflexivity. Qed.

Lemma bind_ret {X Y} (a : X) (k : X -> M world Y) p :
  bind (ret a) k p = k a p.
Proof. reflexivity. Qed.

Lemma bind_call {X Y} (f : world -> X * world) (k : X -> M world Y) p :
  bind (call f) k p = k (fst (f (env p))) (set_env p (snd (f (env p)))).
Proof. unfold bind. now rewrite call_run. Qed.
End MonadSteps.

Lemma shape4_rows n m k d (states : tensor4) :
  shape4 n m k d states ->
  length (concat (concat states)) = n * m * k /\
  Forall (shape1 d) (concat (concat states)).
Proof.
  intros [Hl Hf]. split.
  - rewrite (concat_length_uniform k).
    + f_equal. rewrite (concat_length_uniform m); [now rewrite Hl|].
      revert Hf. apply Forall_impl. now intros s [Hs _].
    + apply Forall_concat. revert Hf. apply Forall_impl. intros s [_ Hs].
      revert Hs. apply Forall_impl. now intros r [Hr _].
  - apply Forall_concat, Forall_concat. revert Hf. apply Forall_impl.
    intros s [_ Hs]. revert Hs. apply Forall_impl. now intros r [_ Hr].
Qed.

Section PlannerFacts.
Variable world : Type.
Variable ext : externals world.
Variable cfg : config.

Local Abbreviation E := (ensemble_size ext).
Local Abbreviation A := (action_size cfg).
Local Abbreviation H := (plan_horizon cfg).
Local Abbreviation C := (n_candidates cfg).
Local Abbreviation K := (top_candidates cfg).
Local Abbreviation randn_shapes := (randn_shapes ext).
Local Abbreviation reward_rows := (reward_rows ext).
Local Abbreviation measure_shapes := (measure_shapes ext cfg).
Local Abbreviation interface_ok := (interface_ok ext cfg).
Local Abbreviation valid_config := (valid_config cfg).
Local Abbreviation reward_contribution := (reward_contribution ext cfg).
Local Abbreviation exploration_part := (exploration_part ext cfg).
Local Abbreviation world_after_measure := (world_after_measure ext cfg).
Local Abbreviation rewards_of := (rewards_of ext cfg).
Local Abbreviation scored_returns := (scored_returns ext cfg).
Local Abbreviation scored_planner := (scored_planner ext cfg).
Local Abbreviation iter_actions := (iter_actions ext cfg).
Local Abbreviation iter_states := (iter_states ext cfg).
Local Abbreviation iter_vars := (iter_vars ext cfg).
Local Abbreviation iter_means := (iter_means ext cfg).
Local Abbreviation iter_rolled := (iter_rolled ext cfg).
Local Abbreviation iter_returns := (iter_returns ext cfg).
Local Abbreviation iter_planner := (iter_planner ext cfg).
Local Abbreviation log_ok := (log_ok cfg).

Lemma reward_reduction r :
  length r = H * E * C ->
  reduce_dim0 tsum C
    (map (reduce_dim0 mean_list C) (map (chunks E C) (chunks H (E * C) r)))
  = map (reward_contribution r) (seq 0 C).
Proof.
  intros Hr. unfold reduce_dim0 at 1. apply map_ext_in. intros c Hc.
  apply in_seq in Hc. unfold reward_contribution. f_equal.
  unfold column at 1. rewrite map_map.
  rewrite (map_as_seq _ (map (chunks E C) (chunks H (E * C) r)) []).
  rewrite length_map, chunks_length. apply map_ext_in. intros t Ht.
  apply in_seq in Ht. rewrite reduce_dim0_nth by lia. f_equal.
  unfold column. rewrite (map_as_seq _ (nth t _ []) []).
  rewrite (nth_map_in _ _ t [] []) by (rewrite chunks_length; lia).
  rewrite chunks_length. apply map_ext_in. intros e He. apply in_seq in He.
  rewrite <- (view3_entry H E C r t e c) by lia.
  now rewrite (nth_map_in _ _ t [] []) by (rewrite chunks_length; lia).
Qed.

Lemma reward_scores_run D states p :
  shape4 H E C D states -> 0 < D -> reward_rows ->
  reward_scores ext cfg D states p
  = (Ok (map (reward_contribution
                (fst (reward_model ext (concat (concat states)) (env p))))
             (seq 0 C)),
     set_env p (snd (reward_model ext (concat (concat states)) (env p)))).
Proof.
  intros Hs HD Hrw. destruct (shape4_rows _ _ _ _ _ Hs) as [Hlen Hrows].
  unfold reward_scores, flatten4. rewrite view2_rows by assumption.
  rewrite bind_lift_ok, bind_call.
  unfold view3.
  rewrite Hrw, Hlen, Nat.eqb_refl, bind_lift_ok. unfold ret.
  rewrite reward_reduction; [reflexivity|]. now rewrite Hrw.
Qed.
(** *** One iteration, value by value *)

Lemma exploration_part_length dmeans dvars w :
  length (exploration_part dmeans dvars w) = C.
Proof.
  unfold exploration_part. destruct (use_exploration cfg).
  - unfold tadd1. rewrite zip_with_length; rewrite repeat_length; trivial.
    now rewrite reduce_dim0_length.
  - apply repeat_length.
Qed.

Lemma exploration_returns_run dmeans dvars p :
  exploration_returns ext cfg (repeat zero C) dmeans dvars p
  = (Ok (exploration_part dmeans dvars (env p)),
     set_env p (world_after_measure dmeans dvars (env p))).
Proof.
  unfold exploration_returns, exploration_part, world_after_measure.
  destruct (use_exploration cfg).
  - now rewrite bind_call.
  - unfold ret. now rewrite set_env_env.
Qed.

Lemma reward_returns_run D returns states p :
  shape4 H E C D states -> (use_reward cfg = true -> 0 < D) -> reward_rows ->
  reward_returns ext cfg D returns states p
  = if use_reward cfg
    then (Ok (tadd1 returns (rewards_of states (env p))),
          {| reward_stats := reward_stats p ++ [rewards_of states (env p)];
             env := snd (reward_model ext (concat (concat states)) (env p)) |})
    else (Ok returns, p).
Proof.
  intros Hs HD Hrw. unfold reward_returns.
  destruct (use_reward cfg); [|reflexivity].
  rewrite (bind_ok _ _ _ _ _ (reward_scores_run D states p Hs (HD eq_refl) Hrw)).
  reflexivity.
Qed.

Lemma accumulated_returns_run D states dvars dmeans p :
  shape4 H E C D states -> (use_reward cfg = true -> 0 < D) -> reward_rows ->
  accumulated_returns ext cfg D states dvars dmeans p
  = (Ok (scored_returns states dvars dmeans (env p)),
     scored_planner states dvars dmeans p).
Proof.
  intros Hs HD Hrw. unfold accumulated_returns.
  rewrite (bind_ok _ _ _ _ _ (exploration_returns_run dmeans dvars p)).
  rewrite (reward_returns_run D) by assumption.
  unfold scored_returns, scored_planner. now destruct (use_reward cfg).
Qed.

Lemma candidate_returns_run D states dvars dmeans p :
  shape4 H E C D states -> (use_reward cfg = true -> 0 < D) -> reward_rows ->
  candidate_returns ext cfg D states dvars dmeans p
  = (Ok (nan_to_zero (scored_returns states dvars dmeans (env p))),
     scored_planner states dvars dmeans p).
Proof.
  intros Hs HD Hrw. unfold candidate_returns.
  now rewrite (bind_ok _ _ _ _ _
                 (accumulated_returns_run D states dvars dmeans p Hs HD Hrw)).
Qed.

Lemma scored_returns_length states dvars dmeans w :
  length (scored_returns states dvars dmeans w) = C.
Proof.
  unfold scored_returns. destruct (use_reward cfg).
  - unfold tadd1. rewrite zip_with_length; rewrite exploration_part_length; trivial.
    unfold rewards_of. now rewrite length_map, length_seq.
  - apply exploration_part_length.
Qed.

Lemma iter_shapes D s0 mean std p :
  interface_ok D -> shape3 E C D s0 ->
  shape3 H 1 A mean -> shape3 H 1 A std ->
  shape3 H C A (iter_actions mean std p) /\
  shape4 H E C D (iter_states s0 mean std p) /\
  shape4 H E C D (iter_vars s0 mean std p) /\
  shape4 H E C D (iter_means s0 mean std p).
Proof.
  intros Hok Hs0 Hm Hs.
  assert (Ha : shape3 H C A (iter_actions mean std p)).
  { apply sample_actions_shape; trivial. apply (ok_randn Hok). }
  split; [exact Ha|].
  pose proof (recurrence_shapes world ext cfg D s0 (iter_actions mean std p)
                (snd (randn ext H C A (env p)))
                (ok_ensemble Hok) (ok_sample Hok) Hs0 Ha) as Hrec.
  unfold iter_states, iter_vars, iter_means.
  repeat split; try (now rewrite length_map, length_seq);
    apply Forall_map, Forall_forall; intros t Ht; apply in_seq in Ht;
    destruct (Hrec t ltac:(lia)) as [Hst Hd]; trivial;
    destruct (Hd ltac:(lia)); trivial.
Qed.

Lemma cem_iteration_run D s0 mean std p :
  interface_ok D -> 0 < H -> K <= C -> (use_reward cfg = true -> 0 < D) ->
  shape3 E C D s0 -> shape3 H 1 A mean -> shape3 H 1 A std ->
  exists idx,
    topk (nan_to_zero (iter_returns s0 mean std p)) K = Ok idx /\
    length idx = K /\ NoDup idx /\ (forall i, In i idx -> i < C) /\
    cem_iteration ext cfg D s0 (mean, std) p
    = (Ok (refit cfg (gather_dim1 idx (iter_actions mean std p))),
       iter_planner s0 mean std p).
Proof.
  intros Hok HH HK HD Hs0 Hm Hs.
  destruct (iter_shapes D s0 mean std p Hok Hs0 Hm Hs) as (Ha & Hst & Hv & Hmn).
  destruct (topk_ok (nan_to_zero (iter_returns s0 mean std p)) K)
    as (idx & Htop & Hlen & Hnd & Hrange & _).
  { rewrite nan_to_zero_length. unfold iter_returns.
    now rewrite scored_returns_length. }
  rewrite nan_to_zero_length in Hrange. unfold iter_returns in Hrange.
  rewrite scored_returns_length in Hrange.
  exists idx. repeat split; trivial.
  unfold cem_iteration. rewrite bind_call. fold (iter_actions mean std p).
  rewrite (bind_ok _ _ _ _ _
             (perform_rollout_run world ext cfg s0 (iter_actions mean std p)
                (set_env p (snd (randn ext H C A (env p)))) HH
                ltac:(destruct Ha as [-> _]; lia))).
  cbn [env set_env reward_stats].
  fold (iter_states s0 mean std p) (iter_vars s0 mean std p)
       (iter_means s0 mean std p).
  rewrite set_env_set_env. fold (iter_rolled s0 mean std p).
  rewrite (bind_ok _ _ _ _ _
             (candidate_returns_run D _ _ _ _ Hst HD (ok_reward Hok))).
  fold (iter_returns s0 mean std p). fold (iter_planner s0 mean std p).
  rewrite Htop, bind_lift_ok.
  rewrite select_elite_run by assumption.
  rewrite bind_lift_ok. reflexivity.
Qed.

Lemma iter_planner_log s0 mean std p :
  log_ok p -> log_ok (iter_planner s0 mean std p).
Proof.
  unfold log_ok, iter_planner, scored_planner, iter_rolled. intros Hl.
  destruct (use_reward cfg); cbn [reward_stats set_env]; trivial.
  apply Forall_app. split; trivial. constructor; [|constructor].
  unfold shape1, rewards_of. now rewrite length_map, length_seq.
Qed.

Lemma cem_loop_from D s0 n : forall a dist p,
  interface_ok D -> 0 < H -> K <= C -> (use_reward cfg = true -> 0 < D) ->
  shape3 E C D s0 -> shape3 H 1 A (fst dist) -> shape3 H 1 A (snd dist) ->
  exists mean std p',
    for_each (seq a n) (fun _ => cem_iteration ext cfg D s0) dist p
    = (Ok (mean, std), p') /\
    shape3 H 1 A mean /\ shape3 H 1 A std /\ (log_ok p -> log_ok p').
Proof.
  induction n as [|n IH]; intros a [mean std] p Hok HH HK HD Hs0 Hm Hs.
  - exists mean, std, p. cbn [fst snd] in Hm, Hs.
    split; [reflexivity|]. split; [exact Hm|]. split; [exact Hs | auto].
  - cbn [fst snd] in Hm, Hs.
    destruct (cem_iteration_run D s0 mean std p Hok HH HK HD Hs0 Hm Hs)
      as (idx & _ & Hlen & _ & Hr & Hrun).
    cbn [seq for_each]. rewrite (bind_ok _ _ _ _ _ Hrun).
    destruct (iter_shapes D s0 mean std p Hok Hs0 Hm Hs) as ([Hal _] & _).
    destruct (IH (S a) (refit cfg (gather_dim1 idx (iter_actions mean std p)))
                 (iter_planner s0 mean std p) Hok HH HK HD Hs0)
      as (mean' & std' & p' & Hrun' & Hm' & Hs' & Hlog).
    + apply refit_shape. unfold gather_dim1. now rewrite length_map.
    + apply refit_shape. unfold gather_dim1. now rewrite length_map.
    + exists mean', std', p'.
      split; [exact Hrun'|]. split; [exact Hm'|]. split; [exact Hs'|].
      intros Hl. now apply Hlog, iter_planner_log.
Qed.

Lemma state_batch_shape (state : tensor1) :
  shape3 E C (length state) (repeat (repeat state C) E).
Proof.
  split; [apply repeat_length|]. apply shape_repeat.
  split; [apply repeat_length|]. now apply shape_repeat.
Qed.

Lemma forward_run state p :
  interface_ok (length state) -> 0 < H -> K <= C ->
  (use_reward cfg = true -> 0 < length state) ->
  exists mean std v p',
    cem_loop ext cfg (length state) (repeat (repeat state C) E) p
    = (Ok (mean, std), p') /\
    shape3 H 1 A mean /\ shape3 H 1 A std /\
    nth 0 mean [] = [v] /\ length v = A /\
    forward ext cfg state p = (Ok v, p') /\ (log_ok p -> log_ok p').
Proof.
  intros Hok HH HK HD.
  destruct (cem_loop_from (length state) (repeat (repeat state C) E)
              (optimisation_iters cfg) 0
              (full3 H 1 A zero, full3 H 1 A one) p Hok HH HK HD
              (state_batch_shape state) (full3_shape _ _ _ _)
              (full3_shape _ _ _ _))
    as (mean & std & p' & Hrun & Hm & Hs & Hlog).
  pose proof (shape3_nth mean H 1 A 0 Hm HH) as [Hl Hrow].
  destruct Hm as [Hlm Hfm].
  destruct mean as [|slab rest]; [simpl in Hlm; lia|]. cbn [nth] in *.
  destruct slab as [|v [|]]; try discriminate.
  exists ([v] :: rest), std, v, p'.
  split; [exact Hrun|]. split; [now split|]. split; [exact Hs|].
  split; [reflexivity|]. split; [|split; [|exact Hlog]].
  - now inversion Hrow.
  - unfold forward. fold (cem_loop ext cfg (length state)
                            (repeat (repeat state C) E)).
    now rewrite (bind_ok _ _ _ _ _ Hrun).
Qed.
End PlannerFacts.

(** ** Planners that agree on the state of the collaborators *)

Section IndependenceFacts.
Variable world : Type.
Variable ext : externals world.
Variable cfg : config.

Local Abbreviation E := (ensemble_size ext).
Local Abbreviation A := (action_size cfg).
Local Abbreviation H := (plan_horizon cfg).
Local Abbreviation C := (n_candidates cfg).
Local Abbreviation K := (top_candidates cfg).

Lemma iter_values_same s0 mean std (p q : planner world) :
  env p = env q ->
  iter_actions ext cfg mean std p = iter_actions ext cfg mean std q /\
  iter_returns ext cfg s0 mean std p = iter_returns ext cfg s0 mean std q /\
  env (iter_planner ext cfg s0 mean std p)
  = env (iter_planner ext cfg s0 mean std q).
Proof.
  intros He.
  unfold iter_returns, iter_planner, scored_planner, iter_rolled, iter_states,
    iter_vars, iter_means, iter_actions.
  cbn [env set_env]. rewrite He.
  repeat split. now destruct (use_reward cfg).
Qed.

Lemma cem_loop_same_env D s0 n : forall a dist (p q : planner world),
  interface_ok ext cfg D -> 0 < H -> K <= C ->
  (use_reward cfg = true -> 0 < D) ->
  shape3 E C D s0 -> shape3 H 1 A (fst dist) -> shape3 H 1 A (snd dist) ->
  env p = env q ->
  exists d p' q',
    for_each (seq a n) (fun _ => cem_iteration ext cfg D s0) dist p = (Ok d, p') /\
    for_each (seq a n) (fun _ => cem_iteration ext cfg D s0) dist q = (Ok d, q') /\
    env p' = env q'.
Proof.
  induction n as [|n IH]; intros a [mean std] p q Hok HH HK HD Hs0 Hm Hs He.
  - exists (mean, std), p, q. repeat split. exact He.
  - cbn [fst snd] in Hm, Hs.
    destruct (cem_iteration_run world ext cfg D s0 mean std p Hok HH HK HD
                Hs0 Hm Hs) as (idx & Htop & _ & _ & _ & Hrun).
    destruct (cem_iteration_run world ext cfg D s0 mean std q Hok HH HK HD
                Hs0 Hm Hs) as (idx' & Htop' & _ & _ & _ & Hrun').
    destruct (iter_values_same s0 mean std p q He) as (Ha & Hr & He').
    rewrite <- Hr in Htop'. rewrite Htop in Htop'.
    inversion Htop'; subst idx'. rewrite <- Ha in Hrun'.
    cbn [seq for_each].
    rewrite (bind_ok _ _ _ _ _ Hrun), (bind_ok _ _ _ _ _ Hrun').
    destruct (iter_shapes world ext cfg D s0 mean std p Hok Hs0 Hm Hs)
      as ([Hal _] & _).
    apply IH; trivial; apply refit_shape; unfold gather_dim1;
      now rewrite length_map.
Qed.

End IndependenceFacts.


(** ** The statistics of the reward log *)

Lemma fold_max_bound rest : forall a,
  all_num1 rest ->
  exists m, fold_left Scalar.max rest (Num a) = Num m /\
    (m = a \/ In (Num m) rest) /\ (a <= m)%R /\
    (forall r, In (Num r) rest -> (r <= m)%R).
Proof.
  induction rest as [|x rest IH]; intros a Hn.
  - exists a. simpl. repeat split; auto; try lra. intros r [].
  - inversion Hn as [|? ? Hx Hrest]; subst. destruct x as [b|]; [|destruct Hx].
    cbn [fold_left Scalar.max].
    destruct (IH (Rmax a b) Hrest) as (m & Hf & Hin & Hle & Hall).
    exists m. split; [exact Hf|].
    pose proof (Rmax_l a b). pose proof (Rmax_r a b).
    repeat split.
    + destruct Hin as [->|Hin]; [|right; now right].
      destruct (Rmax_case a b (fun z => z = a \/ z = b)) as [->| ->]; auto.
      right. now left.
    + lra.
    + intros r [Hr|Hr]; [inversion Hr; subst; lra | now apply Hall].
Qed.

Lemma fold_min_bound rest : forall a,
  all_num1 rest ->
  exists m, fold_left Scalar.min rest (Num a) = Num m /\
    (m = a \/ In (Num m) rest) /\ (m <= a)%R /\
    (forall r, In (Num r) rest -> (m <= r)%R).
Proof.
  induction rest as [|x rest IH]; intros a Hn.
  - exists a. simpl. repeat split; auto; try lra. intros r [].
  - inversion Hn as [|? ? Hx Hrest]; subst. destruct x as [b|]; [|destruct Hx].
    cbn [fold_left Scalar.min].
    destruct (IH (Rmin a b) Hrest) as (m & Hf & Hin & Hle & Hall).
    exists m. split; [exact Hf|].
    pose proof (Rmin_l a b). pose proof (Rmin_r a b).
    repeat split.
    + destruct Hin as [->|Hin]; [|right; now right].
      destruct (Rmin_case a b (fun z => z = a \/ z = b)) as [->| ->]; auto.
      right. now left.
    + lra.
    + intros r [Hr|Hr]; [inversion Hr; subst; lra | now apply Hall].
Qed.

Lemma tensor_max_bound l :
  all_num1 l -> l <> [] ->
  exists m, tensor_max l = Ok (Num m) /\ In (Num m) l /\
            (forall r, In (Num r) l -> (r <= m)%R).
Proof.
  intros Hn Hne. destruct l as [|x rest]; [congruence|].
  inversion Hn as [|? ? Hx Hrest]; subst. destruct x as [a|]; [|destruct Hx].
  destruct (fold_max_bound rest a Hrest) as (m & Hf & Hin & Hle & Hall).
  exists m. cbn [tensor_max]. rewrite Hf. repeat split.
  - destruct Hin as [->|Hin]; [now left | now right].
  - intros r [Hr|Hr]; [inversion Hr; subst; lra | now apply Hall].
Qed.

Lemma tensor_min_bound l :
  all_num1 l -> l <> [] ->
  exists m, tensor_min l = Ok (Num m) /\ In (Num m) l /\
            (forall r, In (Num r) l -> (m <= r)%R).
Proof.
  intros Hn Hne. destruct l as [|x rest]; [congruence|].
  inversion Hn as [|? ? Hx Hrest]; subst. destruct x as [a|]; [|destruct Hx].
  destruct (fold_min_bound rest a Hrest) as (m & Hf & Hin & Hle & Hall).
  exists m. cbn [tensor_min]. rewrite Hf. repeat split.
  - destruct Hin as [->|Hin]; [now left | now right].
  - intros r [Hr|Hr]; [inversion Hr; subst; lra | now apply Hall].
Qed.

Lemma stack1_uniform n (log : list tensor1) :
  log <> [] -> Forall (shape1 n) log -> stack1 log = Ok log.
Proof.
  intros Hne Hf. destruct log as [|t rest]; [congruence|]. cbn [stack1].
  inversion Hf as [|? ? Ht Hrest]; subst.
  replace (forallb _ rest) with true; [reflexivity|].
  symmetry. apply forallb_forall. intros u Hu. apply Nat.eqb_eq.
  rewrite Forall_forall in Hrest. unfold shape1 in *. now rewrite (Hrest u Hu).
Qed.

Section StatsFacts.
Variable world : Type.
Variable ext : externals world.
Variable cfg : config.
Local Abbreviation info_stats := (info_stats ext cfg).
Local Abbreviation after_info := (after_info ext cfg).

Lemma after_info_log p : reward_stats (after_info p) = reward_stats p.
Proof. unfold after_info. now destruct (use_exploration cfg). Qed.

Lemma get_stats_run p :
  get_stats ext cfg p
  = match stack1 (reward_stats p) with
    | Raise e => (Raise e, after_info p)
    | Ok t =>
        match tensor_max (concat t), tensor_min (concat t) with
        | Ok mx, Ok mn =>
            (Ok (info_stats p,
                 {| stat_max := mx; stat_mean := mean_list (concat t);
                    stat_min := mn; stat_std := std_list true (concat t) |}),
             {| reward_stats := []; env := env (after_info p) |})
        | Raise e, _ => (Raise e, after_info p)
        | Ok _, Raise e => (Raise e, after_info p)
        end
    end.
Proof.
  unfold get_stats, info_stats, after_info.
  destruct (use_exploration cfg).
  - rewrite bind_call. unfold bind, read_reward_stats, lift.
    cbn [reward_stats set_env].
    destruct (stack1 (reward_stats p)) as [t|e]; [|reflexivity].
    destruct (tensor_max (concat t)) as [mx|e]; [|reflexivity].
    destruct (tensor_min (concat t)) as [mn|e]; reflexivity.
  - rewrite bind_ret. unfold bind, read_reward_stats, lift.
    destruct (stack1 (reward_stats p)) as [t|e]; [|reflexivity].
    destruct (tensor_max (concat t)) as [mx|e]; [|reflexivity].
    destruct (tensor_min (concat t)) as [mn|e]; reflexivity.
Qed.
End StatsFacts.


(** ** The scenario honours the interfaces *)

Module ScenarioFacts.
Import Scenario.

Lemma like3_shape x t n m k : shape3 n m k t -> shape3 n m k (like3 x t).
Proof.
  intros [Hl Hf]. unfold like3. split; [now rewrite length_map|].
  apply Forall_map. revert Hf. apply Forall_impl. intros s [Hs Hr].
  split; [now rewrite length_map|].
  apply Forall_map. revert Hr. apply Forall_impl. intros r Hr.
  unfold shape1 in *. now rewrite length_map.
Qed.

Lemma noise_shape h c a w : shape3 h c a (noise h c a w).
Proof.
  unfold noise. split; [now rewrite length_map, length_seq|].
  apply Forall_map, Forall_forall. intros t _.
  split; [now rewrite length_map, length_seq|].
  apply Forall_map, Forall_forall. intros i _.
  unfold shape1. now rewrite length_map, length_seq.
Qed.

Lemma noise_num h c a w : all_num3 (noise h c a w).
Proof.
  unfold noise, all_num3, all_num2, all_num1.
  apply Forall_map, Forall_forall. intros t _.
  apply Forall_map, Forall_forall. intros i _.
  apply Forall_map, Forall_forall. intros j _. exact I.
Qed.

Lemma interface (c : config) (D : nat) :
  0 < plan_horizon c -> interface_ok ext c D.
Proof.
  intros HH. constructor.
  - intros h n a w. apply noise_shape.
  - intros s a w Hs _. split; now apply like3_shape.
  - intros dm dv w Hm _. exact Hm.
  - intros rows w. simpl. apply length_map.
  - intros dm dv w [Hl Hf] _. simpl. split; [now rewrite length_map|].
    apply Forall_map. revert Hf. apply Forall_impl. intros slab Hs.
    unfold shape1. rewrite length_map.
    now destruct (shape3_nth slab 2 (n_candidates c) D 0 Hs ltac:(lia)).
Qed.

Lemma s0_nan_shape : shape3 2 3 2 s0_nan.
Proof. repeat (split || constructor). Qed.

Lemma interface_cfg : interface_ok ext cfg 2.
Proof. apply interface. simpl. lia. Qed.


Lemma cfg_valid : valid_config cfg.
Proof. unfold valid_config. simpl. lia. Qed.


End ScenarioFacts.

(** * Main results *)

(** Evaluation of real comparisons on literals. *)
Ltac decide_reals :=
  repeat match goal with
         | |- context [Rlt_dec ?a ?b] => destruct (Rlt_dec a b); try lra
         | |- context [Rle_dec ?a ?b] => destruct (Rle_dec a b); try lra
         | |- context [Req_dec_T ?a ?b] => destruct (Req_dec_T a b); try lra
         end.

(** The example of the specification: returns [1, 5, 3, 9, 2] and
    [top_candidates = 2] select the candidates of returns 9 and 5. *)
Example topk_example :
  topk (nan_to_zero [Num 1; Num 5; Num 3; Num 9; Num 2]) 2 = Ok [3; 1].
Proof.
  unfold topk, nan_to_zero. cbn -[Rlt_dec]. decide_reals.
  cbn -[Rlt_dec]. decide_reals. reflexivity.
Qed.

(** C2: the elite indices selected from the NaN-normalised returns are
    exactly [k] distinct candidates, and the returns split, as a multiset,
    into the selected values and the others, every selected value being at
    least every other one: the selected values are the [k] largest. *)
Theorem topk_selects_largest (returns : tensor1) (k : nat) :
  k <= length returns ->
  let vals := nan_to_zero returns in
  exists idx,
    topk vals k = Ok idx /\ length idx = k /\ NoDup idx /\
    (forall i, In i idx -> i < length returns) /\
    Permutation (map (val vals) idx
                 ++ map (val vals) (unselected idx (length returns))) vals /\
    (forall i j, In i idx -> In j (unselected idx (length returns)) ->
       exists a b, val vals i = Num a /\ val vals j = Num b /\ (b <= a)%R).
Proof.
  intros Hk vals.
  assert (Hlen : length vals = length returns) by apply nan_to_zero_length.
  destruct (topk_ok vals k) as (idx & Htop & Hl & Hnd & Hr & Hd); [lia|].
  rewrite Hlen in Hr, Hd.
  exists idx. repeat split; trivial.
  - rewrite <- map_app.
    apply Permutation_trans with (map (val vals) (seq 0 (length returns))).
    + apply Permutation_map. now apply selected_partition.
    + rewrite <- Hlen. unfold val. now rewrite map_nth_seq.
  - intros i j Hi Hj. apply unselected_In in Hj. destruct Hj as [Hj Hnj].
    destruct (num_val vals i (nan_to_zero_num returns)) as [a Ha];
      [rewrite Hlen; auto|].
    destruct (num_val vals j (nan_to_zero_num returns)) as [b Hb];
      [rewrite Hlen; auto|].
    exists a, b. repeat split; trivial.
    apply le_num. rewrite <- Ha, <- Hb. now apply Hd.
Qed.

Lemma topk_selects_largest_witness :
  exists idx,
    topk (nan_to_zero [Num 1; Num 5; Num 3; Num 9; Num 2]) 2 = Ok idx /\
    length idx = 2.
Proof.
  destruct (topk_selects_largest [Num 1; Num 5; Num 3; Num 9; Num 2] 2)
    as (idx & Htop & Hl & _); [simpl; lia|].
  exists idx. split; assumption.
Defined.

(** C3: in one iteration of the loop the returns accumulated from both
    contributions are normalised before the selection, and the selection
    runs on the normalised vector: the iteration returns the refit of the
    actions gathered at the indices that [topk] selects from
    [nan_to_zero returns], [returns] being what [accumulated_returns] yields
    on the rollout of the sampled actions.  Normalisation keeps the length
    (no candidate is dropped), replaces exactly the NaN entries by 0 and
    leaves the others; nothing is raised; every selected candidate ranks, by
    its normalised return, at least as high as every other one; and a
    candidate whose return is NaN is selected whenever all other returns are
    negative numbers: it counts as 0. *)
Theorem nan_returns_count_as_zero {world : Type} (ext : externals world)
    (cfg : config) (D : nat) (s0 mean std : tensor3) (p : planner world) :
  interface_ok ext cfg D -> valid_config cfg ->
  (use_reward cfg = true -> 0 < D) ->
  shape3 (ensemble_size ext) (n_candidates cfg) D s0 ->
  shape3 (plan_horizon cfg) 1 (action_size cfg) mean ->
  shape3 (plan_horizon cfg) 1 (action_size cfg) std ->
  let drawn := randn ext (plan_horizon cfg) (n_candidates cfg)
                     (action_size cfg) (env p) in
  let actions := sample_actions cfg mean std (fst drawn) in
  exists states dvars dmeans p1 returns p2 idx,
    perform_rollout ext cfg s0 actions (set_env p (snd drawn))
    = (Ok (states, dvars, dmeans), p1) /\
    accumulated_returns ext cfg D states dvars dmeans p1 = (Ok returns, p2) /\
    length returns = n_candidates cfg /\
    candidate_returns ext cfg D states dvars dmeans p1
    = (Ok (nan_to_zero returns), p2) /\
    length (nan_to_zero returns) = n_candidates cfg /\
    (forall c, c < n_candidates cfg ->
       val (nan_to_zero returns) c
       = if isnan (val returns c) then zero else val returns c) /\
    topk (nan_to_zero returns) (top_candidates cfg) = Ok idx /\
    length idx = top_candidates cfg /\ NoDup idx /\
    (forall i, In i idx -> i < n_candidates cfg) /\
    (forall i j, In i idx -> j < n_candidates cfg -> ~ In j idx ->
       le (val (nan_to_zero returns) j) (val (nan_to_zero returns) i)) /\
    (forall c, c < n_candidates cfg -> val returns c = NaN ->
       (forall j, j < n_candidates cfg -> j <> c ->
          exists x, val returns j = Num x /\ (x < 0)%R) ->
       In c idx) /\
    cem_iteration ext cfg D s0 (mean, std) p
    = (Ok (refit cfg (gather_dim1 idx actions)), p2).
Proof.
  intros Hok (_ & HH & _ & _ & HK0 & HK) HD Hs0 Hm Hs drawn actions.
  destruct (iter_shapes world ext cfg D s0 mean std p Hok Hs0 Hm Hs)
    as (Ha & Hst & _ & _).
  pose proof (perform_rollout_run world ext cfg s0 actions
                (set_env p (snd drawn)) HH
                ltac:(destruct Ha as [Hl _]; unfold actions, drawn;
                      unfold iter_actions in Hl; rewrite Hl; lia)) as Hroll.
  pose proof (accumulated_returns_run world ext cfg D
                (iter_states ext cfg s0 mean std p)
                (iter_vars ext cfg s0 mean std p)
                (iter_means ext cfg s0 mean std p)
                (iter_rolled ext cfg s0 mean std p) Hst HD (ok_reward Hok))
    as Hacc.
  pose proof (candidate_returns_run world ext cfg D
                (iter_states ext cfg s0 mean std p)
                (iter_vars ext cfg s0 mean std p)
                (iter_means ext cfg s0 mean std p)
                (iter_rolled ext cfg s0 mean std p) Hst HD (ok_reward Hok))
    as Hcand.
  destruct (cem_iteration_run world ext cfg D s0 mean std p Hok HH HK HD
              Hs0 Hm Hs) as (idx & Htop & Hlen & Hnd & Hr & Hrun).
  destruct (topk_ok (nan_to_zero (iter_returns ext cfg s0 mean std p))
              (top_candidates cfg)) as (idx' & Htop' & _ & _ & _ & Hd).
  { rewrite nan_to_zero_length. unfold iter_returns.
    now rewrite scored_returns_length. }
  rewrite Htop in Htop'. inversion Htop'; subst idx'. clear Htop'.
  assert (Hlr : length (iter_returns ext cfg s0 mean std p) = n_candidates cfg)
    by (unfold iter_returns; apply scored_returns_length).
  rewrite nan_to_zero_length, Hlr in Hd.
  exists (iter_states ext cfg s0 mean std p), (iter_vars ext cfg s0 mean std p),
    (iter_means ext cfg s0 mean std p), (iter_rolled ext cfg s0 mean std p),
    (iter_returns ext cfg s0 mean std p), (iter_planner ext cfg s0 mean std p),
    idx.
  split; [exact Hroll|]. split; [exact Hacc|]. split; [exact Hlr|].
  split; [exact Hcand|].
  split; [now rewrite nan_to_zero_length|].
  split; [intros c Hc; apply nan_to_zero_nth; now rewrite Hlr|].
  split; [exact Htop|]. split; [exact Hlen|]. split; [exact Hnd|].
  split; [exact Hr|]. split; [exact Hd|]. split; [|exact Hrun].
  intros c Hc Hnan Hneg.
  destruct (in_dec Nat.eq_dec c idx) as [Hin|Hout]; [exact Hin|].
  destruct idx as [|i rest]; [simpl in Hlen; lia|].
  assert (Hi : In i (i :: rest)) by now left.
  assert (Hic : i <> c) by (intros ->; contradiction).
  destruct (Hneg i (Hr i Hi) Hic) as (x & Hx & Hx0).
  pose proof (Hd i c Hi Hc Hout) as Hle.
  rewrite !nan_to_zero_nth in Hle by (rewrite Hlr; auto).
  rewrite Hnan, Hx in Hle. cbn [isnan] in Hle.
  apply le_num in Hle. lra.
Qed.

Lemma nan_returns_count_as_zero_witness :
  exists returns idx dist p',
    val returns 1 = NaN /\ In 1 idx /\
    topk (nan_to_zero returns) 2 = Ok idx /\
    cem_iteration Scenario.ext Scenario.cfg 2 Scenario.s0_nan
      (full3 2 1 1 zero, full3 2 1 1 one) Scenario.p0 = (Ok dist, p').
Proof.
  destruct (nan_returns_count_as_zero Scenario.ext Scenario.cfg 2
              Scenario.s0_nan (full3 2 1 1 zero) (full3 2 1 1 one) Scenario.p0
              ScenarioFacts.interface_cfg ScenarioFacts.cfg_valid)
    as (states & dvars & dmeans & p1 & returns & p2 & idx & Hroll & Hacc & _
        & _ & _ & _ & Htop & _ & _ & _ & _ & Hnan & Hrun).
  - intros _. lia.
  - apply ScenarioFacts.s0_nan_shape.
  - apply full3_shape.
  - apply full3_shape.
  - cbv -[Rplus Rminus Rmult Rdiv Rinv Ropp INR IZR Req_dec_T Rlt_dec] in Hroll.
    injection Hroll as <- <- <- <-.
    cbv -[Rplus Rminus Rmult Rdiv Rinv Ropp INR IZR Req_dec_T Rlt_dec] in Hacc.
    destruct (Req_dec_T (INR 2) 0) as [H2|_];
      [exfalso; simpl in H2; lra|].
    injection Hacc as Hret _.
    exists returns, idx. do 2 eexists.
    split; [now rewrite <- Hret|]. split; [|split; [exact Htop | exact Hrun]].
    apply Hnan; [simpl; lia | now rewrite <- Hret |].
    rewrite <- Hret.
    intros [|[|[|j]]] Hj Hj1; try (simpl in Hj; lia); try congruence;
      (eexists; split; [reflexivity | simpl; lra]).
Defined.

(** C10: at every timestep the action tensor given to the ensemble is the
    slice of that timestep replicated over the ensemble dimension, so any two
    members receive the same candidate actions. *)
Theorem members_share_actions (e : nat) (actions : tensor3) (t e1 e2 : nat) :
  t < length actions -> e1 < e -> e2 < e ->
  nth t (replicate_actions e actions) [] = repeat (nth t actions []) e /\
  nth e1 (nth t (replicate_actions e actions) []) [] = nth t actions [] /\
  nth e1 (nth t (replicate_actions e actions) []) []
  = nth e2 (nth t (replicate_actions e actions) []) [].
Proof.
  intros Ht H1 H2. rewrite replicate_actions_nth by assumption.
  rewrite !nth_repeat_lt by assumption. repeat split.
Qed.

Lemma members_share_actions_witness :
  nth 0 (nth 1 (replicate_actions 2 (Scenario.noise 2 3 1 0)) []) []
  = nth 1 (nth 1 (replicate_actions 2 (Scenario.noise 2 3 1 0)) []) [].
Proof.
  apply (members_share_actions 2 (Scenario.noise 2 3 1 0) 1 0 1);
    simpl; lia.
Defined.

(** C4: the rollout follows the recurrence.  For every timestep [t] below
    the horizon the ensemble is queried with the current state and the
    actions of timestep [t], the next state is the current state plus the
    ensemble's sample from the returned parameters, and the parameters and
    the new state are what the returned trajectories hold for that step. *)
Theorem rollout_follows_recurrence {world : Type} (ext : externals world)
    (cfg : config) (s0 actions : tensor3) (p : planner world) :
  0 < plan_horizon cfg -> length actions = plan_horizon cfg ->
  let state_of := state_at ext s0 actions (env p) in
  let world_of := world_at ext s0 actions (env p) in
  exists states delta_vars delta_means,
    perform_rollout ext cfg s0 actions p
    = (Ok (states, delta_vars, delta_means),
       set_env p (world_of (plan_horizon cfg))) /\
    state_of 0 = s0 /\ world_of 0 = env p /\
    forall t, t < plan_horizon cfg ->
      let r := ensemble ext (state_of t)
                 (nth t (replicate_actions (ensemble_size ext) actions) [])
                 (world_of t) in
      let r' := ensemble_sample ext (fst (fst r)) (snd (fst r)) (snd r) in
      nth t delta_means [] = fst (fst r) /\
      nth t delta_vars [] = snd (fst r) /\
      nth t states [] = tadd3 (state_of t) (fst r') /\
      state_of (S t) = nth t states [] /\
      world_of (S t) = snd r'.
Proof.
  intros HH Ha state_of world_of.
  exists (map state_of (seq 1 (plan_horizon cfg))),
         (map (delta_var_at ext s0 actions (env p)) (seq 1 (plan_horizon cfg))),
         (map (delta_mean_at ext s0 actions (env p)) (seq 1 (plan_horizon cfg))).
  split; [apply perform_rollout_run; lia|].
  split; [reflexivity|]. split; [reflexivity|].
  intros t Ht. cbv zeta.
  rewrite replicate_actions_nth by lia.
  rewrite !(nth_map_in _ (seq 1 (plan_horizon cfg)) t 0 [])
    by now rewrite length_seq.
  rewrite seq_nth by assumption. cbn [Nat.add]. unfold state_of, world_of.
  rewrite state_at_S, delta_mean_at_S, delta_var_at_S, world_at_S.
  repeat split.
Qed.

Lemma rollout_follows_recurrence_witness :
  exists states delta_vars delta_means p',
    perform_rollout Scenario.ext Scenario.cfg
      (repeat (repeat Scenario.state 3) 2) (Scenario.noise 2 3 1 0) Scenario.p0
    = (Ok (states, delta_vars, delta_means), p').
Proof.
  destruct (rollout_follows_recurrence Scenario.ext Scenario.cfg
              (repeat (repeat Scenario.state 3) 2) (Scenario.noise 2 3 1 0)
              Scenario.p0)
    as (states & dvars & dmeans & Hrun & _); [simpl; lia | reflexivity |].
  exists states, dvars, dmeans. eexists. exact Hrun.
Defined.

(** C5: on an initial state of shape (E, C, D) and actions of shape
    (H, C, A), with an ensemble that keeps the shape of the state batch, the
    rollout returns three tensors of shape (H, E, C, D) holding the steps
    1..H of the simulation: the first returned state is the state after one
    step, and the initial state is not part of the trajectory. *)
Theorem rollout_shapes {world : Type} (ext : externals world) (cfg : config)
    (D : nat) (s0 actions : tensor3) (p : planner world) :
  0 < plan_horizon cfg ->
  ensemble_shapes ext cfg D -> sample_shapes ext cfg D ->
  shape3 (ensemble_size ext) (n_candidates cfg) D s0 ->
  shape3 (plan_horizon cfg) (n_candidates cfg) (action_size cfg) actions ->
  exists states delta_vars delta_means p',
    perform_rollout ext cfg s0 actions p
    = (Ok (states, delta_vars, delta_means), p') /\
    shape4 (plan_horizon cfg) (ensemble_size ext) (n_candidates cfg) D states /\
    shape4 (plan_horizon cfg) (ensemble_size ext) (n_candidates cfg) D
           delta_vars /\
    shape4 (plan_horizon cfg) (ensemble_size ext) (n_candidates cfg) D
           delta_means /\
    states = map (state_at ext s0 actions (env p)) (seq 1 (plan_horizon cfg)) /\
    delta_vars
    = map (delta_var_at ext s0 actions (env p)) (seq 1 (plan_horizon cfg)) /\
    delta_means
    = map (delta_mean_at ext s0 actions (env p)) (seq 1 (plan_horizon cfg)).
Proof.
  intros HH He Hs Hs0 Ha.
  pose proof (recurrence_shapes world ext cfg D s0 actions (env p)
                He Hs Hs0 Ha) as Hrec.
  do 3 eexists. exists (set_env p (world_at ext s0 actions (env p)
                                           (plan_horizon cfg))).
  split; [apply perform_rollout_run; [assumption | destruct Ha as [-> _]; lia]|].
  repeat split; try (now rewrite length_map, length_seq);
    apply Forall_map, Forall_forall; intros t Ht; apply in_seq in Ht;
    destruct (Hrec t ltac:(lia)) as [Hst Hd]; trivial;
    destruct (Hd ltac:(lia)); trivial.
Qed.

Lemma rollout_shapes_witness :
  exists states delta_vars delta_means p',
    perform_rollout Scenario.ext Scenario.cfg
      (repeat (repeat Scenario.state 3) 2) (Scenario.noise 2 3 1 0) Scenario.p0
    = (Ok (states, delta_vars, delta_means), p') /\
    shape4 2 2 3 2 states.
Proof.
  destruct (rollout_shapes Scenario.ext Scenario.cfg 2
              (repeat (repeat Scenario.state 3) 2) (Scenario.noise 2 3 1 0)
              Scenario.p0)
    as (states & dvars & dmeans & p' & Hrun & Hsh & _).
  - simpl; lia.
  - apply (ok_ensemble ScenarioFacts.interface_cfg).
  - apply (ok_sample ScenarioFacts.interface_cfg).
  - apply (state_batch_shape nat Scenario.ext Scenario.cfg Scenario.state).
  - apply ScenarioFacts.noise_shape.
  - exists states, dvars, dmeans, p'. split; assumption.
Defined.

(** C1: under a valid configuration, with collaborators that honour their
    interfaces, [forward] returns a vector of exactly [action_size]
    entries: the single row of the first timestep of the action mean that
    the last iteration of the loop leaves. *)
Theorem plan_returns_first_mean {world : Type} (ext : externals world)
    (cfg : config) (state : tensor1) (p : planner world) :
  valid_config cfg ->
  interface_ok ext cfg (length state) ->
  (use_reward cfg = true -> state <> []) ->
  exists mean std v p',
    cem_loop ext cfg (length state)
             (repeat (repeat state (n_candidates cfg)) (ensemble_size ext)) p
    = (Ok (mean, std), p') /\
    nth 0 mean [] = [v] /\
    length v = action_size cfg /\
    forward ext cfg state p = (Ok v, p').
Proof.
  intros (_ & HH & _ & _ & _ & HK) Hok Hst.
  destruct (forward_run world ext cfg state p Hok HH HK)
    as (mean & std & v & p' & Hloop & _ & _ & Hrow & Hlen & Hfw & _).
  - intros Hr. specialize (Hst Hr). destruct state; [congruence | simpl; lia].
  - exists mean, std, v, p'. repeat split; assumption.
Qed.

Lemma plan_returns_first_mean_witness :
  exists v p',
    forward Scenario.ext Scenario.cfg Scenario.state Scenario.p0 = (Ok v, p') /\
    length v = 1.
Proof.
  destruct (plan_returns_first_mean Scenario.ext Scenario.cfg Scenario.state
              Scenario.p0 ScenarioFacts.cfg_valid ScenarioFacts.interface_cfg)
    as (mean & std & v & p' & _ & _ & Hlen & Hfw).
  - discriminate.
  - exists v, p'. split; assumption.
Defined.

Lemma flattened_row n m k d (states : tensor4) t e c :
  shape4 n m k d states -> t < n -> e < m -> c < k ->
  nth ((t * m + e) * k + c) (concat (concat states)) []
  = nth c (nth e (nth t states []) []) [].
Proof.
  intros [Hl Hf] Ht He Hc.
  rewrite (nth_concat_uniform k) by
    (trivial; apply Forall_concat; revert Hf; apply Forall_impl;
     intros s [_ Hs]; revert Hs; apply Forall_impl; now intros r [Hr _]).
  f_equal. apply nth_concat_uniform; trivial.
  revert Hf. apply Forall_impl. now intros s [Hs _].
Qed.

Lemma tadd1_val a b n c :
  length a = n -> length b = n -> c < n ->
  val (tadd1 a b) c = add (val a c) (val b c).
Proof.
  intros Ha Hb Hc. unfold val, tadd1.
  now rewrite (zip_with_nth add a b c NaN NaN NaN) by lia.
Qed.

(** C6: with reward scoring enabled, one iteration evaluates the reward
    model on the rows of the flattened trajectory, row [(t * E + e) * C + c]
    being the state of timestep [t], member [e] and candidate [c];
    [reward_scores] yields, per candidate, the sum over the timesteps of the
    mean over the members of these rewards; [reward_returns] adds that
    vector, entry by entry, to the returns it is given and appends it, once,
    to the reward log; and the iteration selects its elite from the sum so
    obtained and ends with the log of its start extended by that one
    vector. *)
Theorem reward_contribution_logged {world : Type} (ext : externals world)
    (cfg : config) (D : nat) (s0 mean std : tensor3) (p : planner world) :
  interface_ok ext cfg D ->
  0 < plan_horizon cfg -> top_candidates cfg <= n_candidates cfg -> 0 < D ->
  use_reward cfg = true ->
  shape3 (ensemble_size ext) (n_candidates cfg) D s0 ->
  shape3 (plan_horizon cfg) 1 (action_size cfg) mean ->
  shape3 (plan_horizon cfg) 1 (action_size cfg) std ->
  let drawn := randn ext (plan_horizon cfg) (n_candidates cfg)
                     (action_size cfg) (env p) in
  let actions := sample_actions cfg mean std (fst drawn) in
  exists states dvars dmeans p1 r0 p2 idx,
    let rows := concat (concat states) in
    let r := fst (reward_model ext rows (env p2)) in
    let rewards := map (reward_contribution ext cfg r) (seq 0 (n_candidates cfg)) in
    let p3 := {| reward_stats := reward_stats p ++ [rewards];
                 env := snd (reward_model ext rows (env p2)) |} in
    perform_rollout ext cfg s0 actions (set_env p (snd drawn))
    = (Ok (states, dvars, dmeans), p1) /\
    exploration_returns ext cfg (repeat zero (n_candidates cfg)) dmeans dvars p1
    = (Ok r0, p2) /\
    length r0 = n_candidates cfg /\
    view2 D (flatten4 states) = Ok rows /\
    (forall t e c,
       t < plan_horizon cfg -> e < ensemble_size ext -> c < n_candidates cfg ->
       nth ((t * ensemble_size ext + e) * n_candidates cfg + c) rows []
       = nth c (nth e (nth t states []) []) []) /\
    length r = plan_horizon cfg * ensemble_size ext * n_candidates cfg /\
    reward_scores ext cfg D states p2
    = (Ok rewards, set_env p2 (snd (reward_model ext rows (env p2)))) /\
    (forall returns,
       reward_returns ext cfg D returns states p2
       = (Ok (tadd1 returns rewards),
          {| reward_stats := reward_stats p2 ++ [rewards];
             env := snd (reward_model ext rows (env p2)) |})) /\
    reward_stats p2 = reward_stats p /\
    accumulated_returns ext cfg D states dvars dmeans p1
    = (Ok (tadd1 r0 rewards), p3) /\
    (forall c, c < n_candidates cfg ->
       val (tadd1 r0 rewards) c
       = add (val r0 c) (reward_contribution ext cfg r c)) /\
    topk (nan_to_zero (tadd1 r0 rewards)) (top_candidates cfg) = Ok idx /\
    cem_iteration ext cfg D s0 (mean, std) p
    = (Ok (refit cfg (gather_dim1 idx actions)), p3).
Proof.
  intros Hok HH HK HD Hrw Hs0 Hm Hs drawn actions.
  destruct (iter_shapes world ext cfg D s0 mean std p Hok Hs0 Hm Hs)
    as (Ha & Hst & _ & _).
  destruct (shape4_rows _ _ _ _ _ Hst) as [Hlen Hrows].
  set (states := iter_states ext cfg s0 mean std p) in *.
  set (dvars := iter_vars ext cfg s0 mean std p).
  set (dmeans := iter_means ext cfg s0 mean std p).
  set (p1 := iter_rolled ext cfg s0 mean std p).
  set (r0 := exploration_part ext cfg dmeans dvars (env p1)).
  set (p2 := set_env p1 (world_after_measure ext cfg dmeans dvars (env p1))).
  pose proof (perform_rollout_run world ext cfg s0 actions
                (set_env p (snd drawn)) HH
                ltac:(destruct Ha as [Hl _]; unfold actions, drawn;
                      unfold iter_actions in Hl; rewrite Hl; lia)) as Hroll.
  pose proof (exploration_returns_run world ext cfg dmeans dvars p1) as Hexp.
  pose proof (reward_scores_run world ext cfg D states p2 Hst HD (ok_reward Hok))
    as Hsc.
  assert (Hret : forall returns,
             reward_returns ext cfg D returns states p2
             = (Ok (tadd1 returns (rewards_of ext cfg states (env p2))),
                {| reward_stats := reward_stats p2
                                   ++ [rewards_of ext cfg states (env p2)];
                   env := snd (reward_model ext (concat (concat states))
                                 (env p2)) |})).
  { intros returns.
    rewrite (reward_returns_run world ext cfg D returns states p2 Hst
               (fun _ => HD) (ok_reward Hok)).
    now rewrite Hrw. }
  pose proof (accumulated_returns_run world ext cfg D states dvars dmeans p1
                Hst (fun _ => HD) (ok_reward Hok)) as Hacc.
  unfold scored_returns, scored_planner in Hacc. rewrite Hrw in Hacc.
  destruct (cem_iteration_run world ext cfg D s0 mean std p Hok HH HK
              (fun _ => HD) Hs0 Hm Hs) as (idx & Htop & _ & _ & _ & Hrun).
  unfold iter_returns, iter_planner, scored_returns, scored_planner in Htop, Hrun.
  rewrite Hrw in Htop, Hrun.
  exists states, dvars, dmeans, p1, r0, p2, idx. cbv zeta.
  split; [exact Hroll|]. split; [exact Hexp|].
  split; [apply exploration_part_length|].
  split; [now apply view2_rows|].
  split; [intros t e c Ht He Hc;
          now apply (flattened_row (plan_horizon cfg) _ _ D)|].
  split; [now rewrite (ok_reward Hok)|].
  split; [exact Hsc|]. split; [exact Hret|]. split; [reflexivity|].
  split; [exact Hacc|]. split; [|split; [exact Htop | exact Hrun]].
  intros c Hc. rewrite (tadd1_val _ _ (n_candidates cfg)); trivial.
  - f_equal. unfold val. now rewrite nth_map_seq.
  - apply exploration_part_length.
  - now rewrite length_map, length_seq.
Qed.

Lemma reward_contribution_logged_witness :
  exists rewards dist w,
    length rewards = 3 /\
    cem_iteration Scenario.ext Scenario.cfg 2
      (repeat (repeat Scenario.state 3) 2)
      (full3 2 1 1 zero, full3 2 1 1 one) Scenario.p0
    = (Ok dist, {| reward_stats := [rewards]; env := w |}).
Proof.
  destruct (reward_contribution_logged Scenario.ext Scenario.cfg 2
              (repeat (repeat Scenario.state 3) 2)
              (full3 2 1 1 zero) (full3 2 1 1 one) Scenario.p0
              ScenarioFacts.interface_cfg)
    as (states & dvars & dmeans & p1 & r0 & p2 & idx & _ & _ & _ & _ & _ & _
        & _ & _ & _ & _ & _ & _ & Hrun).
  - simpl; lia.
  - simpl; lia.
  - lia.
  - reflexivity.
  - apply (state_batch_shape nat Scenario.ext Scenario.cfg Scenario.state).
  - apply full3_shape.
  - apply full3_shape.
  - do 3 eexists. split; [|exact Hrun].
    now rewrite length_map, length_seq.
Defined.

(** ** Number-valued tensors *)

Lemma all_num3_entry t n m k i j l :
  shape3 n m k t -> all_num3 t -> i < n -> j < m -> l < k ->
  is_num (entry3 t i j l).
Proof.
  intros St Hn Hi Hj Hl. unfold entry3.
  pose proof (shape3_nth t n m k i St Hi) as S2.
  pose proof (shape2_nth _ m k j S2 Hj) as S1.
  destruct St as [Lt _], S2 as [L2 _]. unfold shape1 in S1.
  unfold all_num3, all_num2, all_num1 in Hn. rewrite Forall_forall in Hn.
  assert (Hit : In (nth i t []) t) by (apply nth_In; lia).
  specialize (Hn _ Hit). rewrite Forall_forall in Hn.
  assert (Hjt : In (nth j (nth i t []) []) (nth i t [])) by (apply nth_In; lia).
  specialize (Hn _ Hjt). rewrite Forall_forall in Hn. apply Hn, nth_In. lia.
Qed.

Lemma gather_num idx (actions : tensor3) n m k :
  shape3 n m k actions -> all_num3 actions ->
  (forall i, In i idx -> i < m) ->
  all_num3 (gather_dim1 idx actions).
Proof.
  intros [_ Hf] Hn Hr. unfold gather_dim1, all_num3, all_num2 in *.
  apply Forall_map. rewrite Forall_forall in *. intros slab Hin.
  apply Forall_map, Forall_forall. intros i Hi.
  specialize (Hn slab Hin). rewrite Forall_forall in Hn.
  apply Hn, nth_In. destruct (Hf slab Hin) as [-> _]. now apply Hr.
Qed.

Lemma constant_column (best : tensor3) n m k t a x :
  shape3 n m k best -> t < n ->
  (forall j, j < m -> entry3 best t j a = Num x) ->
  forall y, In y (column a (nth t best [])) -> y = Num x.
Proof.
  intros Sb Ht Hc y Hy. unfold column in Hy. apply in_map_iff in Hy.
  destruct Hy as (row & <- & Hrow).
  destruct (In_nth _ _ [] Hrow) as (j & Hj & <-).
  apply Hc. now destruct (shape3_nth best n m k t Sb Ht) as [<- _].
Qed.

Lemma concat_nonempty n (log : list tensor1) :
  0 < n -> log <> [] -> Forall (shape1 n) log -> concat log <> [].
Proof.
  intros Hn Hne Hf. destruct log as [|t rest]; [congruence|].
  inversion Hf as [|? ? Ht _]; subst. unfold shape1 in Ht.
  destruct t; [simpl in Ht; lia | discriminate].
Qed.

(** C8: [get_stats] leaves the reward log empty in every case: on an empty
    log it raises before the reset and the log stays empty; on a non-empty
    log it returns the exploration statistics (an empty mapping when
    exploration is off) with the maximum, mean, minimum and deviation of all
    logged values, flattened, and resets the log. *)
Theorem drain_clears_log {world : Type} (ext : externals world) (cfg : config)
    (p : planner world) :
  0 < n_candidates cfg -> log_ok cfg p ->
  let flat := concat (reward_stats p) in
  reward_stats (snd (get_stats ext cfg p)) = [] /\
  (reward_stats p = [] -> fst (get_stats ext cfg p) = Raise RuntimeError) /\
  (reward_stats p <> [] ->
     exists mx mn,
       tensor_max flat = Ok mx /\ tensor_min flat = Ok mn /\
       get_stats ext cfg p
       = (Ok (info_stats ext cfg p,
              {| stat_max := mx; stat_mean := mean_list flat;
                 stat_min := mn; stat_std := std_list true flat |}),
          {| reward_stats := []; env := env (after_info ext cfg p) |})) /\
  (use_exploration cfg = false -> info_stats ext cfg p = []) /\
  (reward_stats p <> [] -> all_num1 flat ->
     exists hi lo,
       tensor_max flat = Ok (Num hi) /\ tensor_min flat = Ok (Num lo) /\
       In (Num hi) flat /\ In (Num lo) flat /\
       forall r, In (Num r) flat -> (lo <= r <= hi)%R).
Proof.
  intros HC Hlog flat. rewrite get_stats_run.
  assert (Hflat : reward_stats p <> [] -> flat <> [])
    by (intros Hne; now apply (concat_nonempty (n_candidates cfg))).
  assert (Hstack : reward_stats p <> [] ->
                   stack1 (reward_stats p) = Ok (reward_stats p))
    by (intros Hne; now apply (stack1_uniform (n_candidates cfg))).
  split; [|split; [|split; [|split]]].
  - destruct (reward_stats p) as [|t rest] eqn:El.
    + cbn [stack1 snd]. now rewrite after_info_log.
    + rewrite Hstack by discriminate. fold flat.
      destruct flat as [|x xs]; [now destruct Hflat|]. reflexivity.
  - intros ->. reflexivity.
  - intros Hne. rewrite (Hstack Hne). fold flat.
    destruct flat as [|x xs] eqn:Ef; [now destruct (Hflat Hne)|].
    do 2 eexists. repeat split.
  - intros Hoff. unfold info_stats. now rewrite Hoff.
  - intros Hne Hnum.
    destruct (tensor_max_bound flat Hnum (Hflat Hne)) as (hi & Hmx & Hin & Hhi).
    destruct (tensor_min_bound flat Hnum (Hflat Hne)) as (lo & Hmn & Hin' & Hlo).
    exists hi, lo. repeat split; trivial; [now apply Hlo | now apply Hhi].
Qed.

Lemma drain_clears_log_witness :
  reward_stats
    (snd (get_stats Scenario.ext Scenario.cfg
            {| reward_stats := [[Num 1; Num 2; Num 3]]; env := 0 |})) = [] /\
  reward_stats (snd (get_stats Scenario.ext Scenario.cfg Scenario.p0)) = [].
Proof.
  split.
  - apply (drain_clears_log Scenario.ext Scenario.cfg
             {| reward_stats := [[Num 1; Num 2; Num 3]]; env := 0 |}).
    + simpl; lia.
    + repeat constructor.
  - apply (drain_clears_log Scenario.ext Scenario.cfg Scenario.p0).
    + simpl; lia.
    + constructor.
Defined.


(** ** Rounding

    In binary32, with the sum taken in order, the mean of three equal
    values need not be that value: for the binary32 number nearest to 1.7,
    [14260634 * 2^-23], it is [14260635 * 2^-23]. *)
Example mean_of_equal_values_rounds :
  let x := SpecFloat.S754_finite false 14260634 (-23) in
  Binary32.mean_list [x; x; x] = SpecFloat.S754_finite false 14260635 (-23).
Proof. vm_compute. reflexivity. Qed.




(** * Further properties of the planner *)

(** ** Where the planning call stops *)

Section EdgeFacts.
Variable world : Type.
Variable ext : externals world.
Variable cfg : config.

Local Abbreviation E := (ensemble_size ext).
Local Abbreviation A := (action_size cfg).
Local Abbreviation H := (plan_horizon cfg).
Local Abbreviation C := (n_candidates cfg).
Local Abbreviation K := (top_candidates cfg).

(** The loop of the rollout only calls collaborators. *)
Lemma rollout_loop_frame actions ts : forall st p,
  exists st' w,
    for_each ts (rollout_step ext actions) st p = (Ok st', set_env p w).
Proof.
  induction ts as [|t ts IH]; intros [[states means] vars] p.
  - exists (states, means, vars), (env p). cbn [for_each]. unfold ret.
    now rewrite set_env_env.
  - cbn [for_each].
    rewrite (bind_ok _ _ _ _ _ (rollout_step_run world ext actions t states
                                  means vars p)).
    cbv zeta.
    match goal with
    | |- context [for_each ts _ ?st ?q] =>
        destruct (IH st q) as (st' & w & Hrun)
    end.
    exists st', w. rewrite Hrun. now rewrite set_env_set_env.
Qed.

Lemma perform_rollout_frame s0 actions p :
  exists o w, perform_rollout ext cfg s0 actions p = (o, set_env p w).
Proof.
  unfold perform_rollout.
  destruct (rollout_loop_frame (replicate_actions E actions) (seq 0 H)
              (set_item 0 s0 (repeat [] (H + 1)), repeat [] (H + 1),
               repeat [] (H + 1)) p) as ([[states means] vars] & w & Hrun).
  rewrite (bind_ok _ _ _ _ _ Hrun). unfold bind, lift, ret.
  destruct (stack (tl states)); [|now eexists; eexists].
  destruct (stack (tl vars)); [|now eexists; eexists].
  destruct (stack (tl means)); now eexists; eexists.
Qed.

Lemma perform_rollout_no_horizon s0 actions p :
  H = 0 -> perform_rollout ext cfg s0 actions p = (Raise RuntimeError, p).
Proof.
  intros HH. unfold perform_rollout. rewrite HH. reflexivity.
Qed.

(** The start of an iteration: the noise is drawn and the rollout runs. *)
Lemma cem_iteration_rolled D s0 mean std p :
  randn_shapes ext -> 0 < H ->
  shape3 H 1 A mean -> shape3 H 1 A std ->
  cem_iteration ext cfg D s0 (mean, std) p
  = bind (candidate_returns ext cfg D (iter_states ext cfg s0 mean std p)
            (iter_vars ext cfg s0 mean std p) (iter_means ext cfg s0 mean std p))
         (fun returns =>
            idx <- lift (topk returns K) ;;
            best_actions <- lift (select_elite cfg idx
                                    (iter_actions ext cfg mean std p)) ;;
            ret (refit cfg best_actions))
         (iter_rolled ext cfg s0 mean std p).
Proof.
  intros Hr HH Hm Hs.
  assert (Ha : shape3 H C A (iter_actions ext cfg mean std p))
    by (apply sample_actions_shape; trivial; apply Hr).
  unfold cem_iteration. rewrite bind_call.
  fold (iter_actions ext cfg mean std p).
  rewrite (bind_ok _ _ _ _ _
             (perform_rollout_run world ext cfg s0
                (iter_actions ext cfg mean std p)
                (set_env p (snd (randn ext H C A (env p)))) HH
                ltac:(destruct Ha as [-> _]; lia))).
  cbn [env set_env reward_stats]. now rewrite set_env_set_env.
Qed.

Lemma loop_first_raises {X} (body : nat -> X -> M world X) a n x p e p' :
  body a x p = (Raise e, p') ->
  for_each (seq a (S n)) body x p = (Raise e, p').
Proof. intros Hb. cbn [seq for_each]. now rewrite (bind_raise _ _ _ _ _ Hb). Qed.

Lemma forward_raises state p e p' :
  cem_loop ext cfg (length state) (repeat (repeat state C) E) p = (Raise e, p') ->
  forward ext cfg state p = (Raise e, p').
Proof.
  intros Hl. unfold forward.
  fold (cem_loop ext cfg (length state) (repeat (repeat state C) E)).
  now rewrite (bind_raise _ _ _ _ _ Hl).
Qed.

Lemma topk_too_many vals k :
  length vals < k -> topk vals k = Raise RuntimeError.
Proof.
  intros Hk. unfold topk.
  destruct (k <=? length vals) eqn:Hle; [apply Nat.leb_le in Hle; lia|].
  reflexivity.
Qed.

End EdgeFacts.

(** X1: with no optimisation iteration the plan is the initial mean, a
    vector of [action_size] zeros; no collaborator is called and the planner
    is left as it was. *)
Theorem plan_without_iterations {world : Type} (ext : externals world)
    (cfg : config) (state : tensor1) (p : planner world) :
  optimisation_iters cfg = 0 -> 0 < plan_horizon cfg ->
  forward ext cfg state p = (Ok (repeat zero (action_size cfg)), p).
Proof.
  intros Hit HH. unfold forward, cem_loop. rewrite Hit. cbn [seq for_each].
  rewrite bind_ret. unfold full3.
  destruct (plan_horizon cfg) as [|h]; [lia|]. reflexivity.
Qed.

Lemma plan_without_iterations_witness :
  forward Scenario.ext
    {| action_size := 2; plan_horizon := 1; optimisation_iters := 0;
       n_candidates := 3; top_candidates := 2; use_reward := true;
       use_exploration := true; expl_scale := one |}
    Scenario.state Scenario.p0
  = (Ok [zero; zero], Scenario.p0).
Proof.
  apply (plan_without_iterations Scenario.ext
           {| action_size := 2; plan_horizon := 1; optimisation_iters := 0;
              n_candidates := 3; top_candidates := 2; use_reward := true;
              use_exploration := true; expl_scale := one |}
           Scenario.state Scenario.p0); simpl; lia.
Defined.

(** X2: with a zero planning horizon the plan always fails: without an
    iteration, the first timestep of the empty mean is an [IndexError]; with
    one, the noise is drawn and stacking the empty trajectory raises a
    [RuntimeError], the reward log being left as it was. *)
Theorem plan_without_horizon {world : Type} (ext : externals world)
    (cfg : config) (state : tensor1) (p : planner world) :
  plan_horizon cfg = 0 ->
  (optimisation_iters cfg = 0 ->
   forward ext cfg state p = (Raise IndexError, p)) /\
  (0 < optimisation_iters cfg ->
   forward ext cfg state p
   = (Raise RuntimeError,
      set_env p (snd (randn ext 0 (n_candidates cfg) (action_size cfg)
                            (env p))))).
Proof.
  intros HH. split.
  - intros Hit. unfold forward, cem_loop. rewrite Hit, HH. reflexivity.
  - intros Hit. apply forward_raises. unfold cem_loop.
    destruct (optimisation_iters cfg) as [|n]; [lia|].
    apply loop_first_raises. unfold cem_iteration. rewrite bind_call.
    rewrite HH at 1 2.
    match goal with
    | |- bind (perform_rollout _ _ ?s ?a) _ ?q = _ =>
        rewrite (bind_raise _ _ _ _ _
                   (perform_rollout_no_horizon world ext cfg s a q HH))
    end.
    now rewrite HH.
Qed.

Lemma plan_without_horizon_witness :
  forward Scenario.ext
    {| action_size := 1; plan_horizon := 0; optimisation_iters := 2;
       n_candidates := 3; top_candidates := 2; use_reward := true;
       use_exploration := true; expl_scale := one |}
    Scenario.state Scenario.p0
  = (Raise RuntimeError, {| reward_stats := []; env := 1 |}).
Proof.
  apply (plan_without_horizon Scenario.ext
           {| action_size := 1; plan_horizon := 0; optimisation_iters := 2;
              n_candidates := 3; top_candidates := 2; use_reward := true;
              use_exploration := true; expl_scale := one |}
           Scenario.state Scenario.p0 eq_refl).
  simpl. lia.
Defined.

(** X3: the rollout never changes the reward log, whatever it is given, and
    with a zero horizon it raises a [RuntimeError] before any collaborator is
    called. *)
Theorem rollout_keeps_log {world : Type} (ext : externals world)
    (cfg : config) (s0 actions : tensor3) (p : planner world) :
  reward_stats (snd (perform_rollout ext cfg s0 actions p)) = reward_stats p /\
  (plan_horizon cfg = 0 ->
   perform_rollout ext cfg s0 actions p = (Raise RuntimeError, p)).
Proof.
  split.
  - destruct (perform_rollout_frame world ext cfg s0 actions p)
      as (o & w & ->). reflexivity.
  - apply perform_rollout_no_horizon.
Qed.

Lemma rollout_keeps_log_witness :
  perform_rollout Scenario.ext
    {| action_size := 1; plan_horizon := 0; optimisation_iters := 2;
       n_candidates := 3; top_candidates := 2; use_reward := true;
       use_exploration := true; expl_scale := one |}
    (repeat (repeat Scenario.state 3) 2) [] Scenario.p0
  = (Raise RuntimeError, Scenario.p0).
Proof.
  apply (rollout_keeps_log Scenario.ext
           {| action_size := 1; plan_horizon := 0; optimisation_iters := 2;
              n_candidates := 3; top_candidates := 2; use_reward := true;
              use_exploration := true; expl_scale := one |}
           (repeat (repeat Scenario.state 3) 2) [] Scenario.p0).
  reflexivity.
Defined.

Lemma iteration_too_many_elites {world : Type} (ext : externals world)
    (cfg : config) (D : nat) (s0 mean std : tensor3) (p : planner world) :
  interface_ok ext cfg D -> 0 < plan_horizon cfg ->
  n_candidates cfg < top_candidates cfg ->
  (use_reward cfg = true -> 0 < D) ->
  shape3 (ensemble_size ext) (n_candidates cfg) D s0 ->
  shape3 (plan_horizon cfg) 1 (action_size cfg) mean ->
  shape3 (plan_horizon cfg) 1 (action_size cfg) std ->
  cem_iteration ext cfg D s0 (mean, std) p
  = (Raise RuntimeError, iter_planner ext cfg s0 mean std p).
Proof.
  intros Hok HH HK HD Hs0 Hm Hs.
  destruct (iter_shapes world ext cfg D s0 mean std p Hok Hs0 Hm Hs)
    as (_ & Hst & _).
  rewrite cem_iteration_rolled by (trivial; apply (ok_randn Hok)).
  rewrite (bind_ok _ _ _ _ _
             (candidate_returns_run world ext cfg D _ _ _ _ Hst HD
                (ok_reward Hok))).
  rewrite topk_too_many; [reflexivity|].
  now rewrite nan_to_zero_length, scored_returns_length.
Qed.

(** X4: asking for more elites than there are candidates makes the plan
    fail with a [RuntimeError] at the selection of the first iteration; by
    then the rollout has run and, with reward scoring on, the reward vector
    of that iteration is already in the log. *)
Theorem oversized_elite_raises {world : Type} (ext : externals world)
    (cfg : config) (state : tensor1) (p : planner world) :
  interface_ok ext cfg (length state) ->
  0 < plan_horizon cfg -> 0 < optimisation_iters cfg ->
  n_candidates cfg < top_candidates cfg ->
  (use_reward cfg = true -> state <> []) ->
  exists p',
    forward ext cfg state p = (Raise RuntimeError, p') /\
    (use_reward cfg = true ->
     exists rewards,
       length rewards = n_candidates cfg /\
       reward_stats p' = reward_stats p ++ [rewards]) /\
    (use_reward cfg = false -> reward_stats p' = reward_stats p).
Proof.
  intros Hok HH Hit HK Hst.
  set (s0 := repeat (repeat state (n_candidates cfg)) (ensemble_size ext)).
  set (m0 := full3 (plan_horizon cfg) 1 (action_size cfg) zero).
  set (d0 := full3 (plan_horizon cfg) 1 (action_size cfg) one).
  exists (iter_planner ext cfg s0 m0 d0 p). split; [|split].
  - apply forward_raises. unfold cem_loop.
    destruct (optimisation_iters cfg) as [|n]; [lia|].
    apply loop_first_raises. apply iteration_too_many_elites; trivial.
    + intros Hr. specialize (Hst Hr). destruct state; [congruence | simpl; lia].
    + apply state_batch_shape.
    + apply full3_shape.
    + apply full3_shape.
  - intros Hr. unfold iter_planner, scored_planner. rewrite Hr.
    eexists. split; [|reflexivity].
    unfold rewards_of. now rewrite length_map, length_seq.
  - intros Hr. unfold iter_planner, scored_planner. rewrite Hr. reflexivity.
Qed.

Lemma oversized_elite_raises_witness :
  exists p' rewards,
    forward Scenario.ext
      {| action_size := 1; plan_horizon := 2; optimisation_iters := 2;
         n_candidates := 3; top_candidates := 4; use_reward := true;
         use_exploration := true; expl_scale := one |}
      Scenario.state Scenario.p0
    = (Raise RuntimeError, p') /\
    reward_stats p' = [rewards].
Proof.
  destruct (oversized_elite_raises Scenario.ext
              {| action_size := 1; plan_horizon := 2; optimisation_iters := 2;
                 n_candidates := 3; top_candidates := 4; use_reward := true;
                 use_exploration := true; expl_scale := one |}
              Scenario.state Scenario.p0)
    as (p' & Hrun & Hlog & _).
  - apply ScenarioFacts.interface. simpl. lia.
  - simpl. lia.
  - simpl. lia.
  - simpl. lia.
  - discriminate.
  - destruct (Hlog eq_refl) as (rewards & _ & Hr).
    exists p', rewards. split; assumption.
Defined.

(** X5: with reward scoring on, an empty state vector makes the plan fail
    with a [RuntimeError], raised by [view(-1, 0)] after the rollout of the
    first iteration; nothing is appended to the reward log. *)
Theorem empty_state_raises {world : Type} (ext : externals world)
    (cfg : config) (p : planner world) :
  interface_ok ext cfg 0 ->
  0 < plan_horizon cfg -> 0 < optimisation_iters cfg ->
  use_reward cfg = true ->
  exists p',
    forward ext cfg [] p = (Raise RuntimeError, p') /\
    reward_stats p' = reward_stats p.
Proof.
  intros Hok HH Hit Hr.
  set (s0 := repeat (repeat ([] : tensor1) (n_candidates cfg))
                    (ensemble_size ext)).
  set (m0 := full3 (plan_horizon cfg) 1 (action_size cfg) zero).
  set (d0 := full3 (plan_horizon cfg) 1 (action_size cfg) one).
  exists (set_env p
            (world_after_measure ext cfg (iter_means ext cfg s0 m0 d0 p)
               (iter_vars ext cfg s0 m0 d0 p)
               (env (iter_rolled ext cfg s0 m0 d0 p)))).
  split; [|reflexivity].
  apply forward_raises. unfold cem_loop.
  destruct (optimisation_iters cfg) as [|n]; [lia|].
  apply loop_first_raises. cbn [length]. fold s0 m0 d0.
  rewrite cem_iteration_rolled
    by (trivial; try apply (ok_randn Hok); apply full3_shape).
  set (q := iter_rolled ext cfg s0 m0 d0 p).
  assert (Hacc : accumulated_returns ext cfg 0 (iter_states ext cfg s0 m0 d0 p)
                   (iter_vars ext cfg s0 m0 d0 p)
                   (iter_means ext cfg s0 m0 d0 p) q
                 = (Raise RuntimeError,
                    set_env q (world_after_measure ext cfg
                                 (iter_means ext cfg s0 m0 d0 p)
                                 (iter_vars ext cfg s0 m0 d0 p) (env q)))).
  { unfold accumulated_returns.
    rewrite (bind_ok _ _ _ _ _ (exploration_returns_run world ext cfg _ _ q)).
    unfold reward_returns. rewrite Hr. reflexivity. }
  assert (Hcand : candidate_returns ext cfg 0 (iter_states ext cfg s0 m0 d0 p)
                    (iter_vars ext cfg s0 m0 d0 p)
                    (iter_means ext cfg s0 m0 d0 p) q
                  = (Raise RuntimeError,
                     set_env q (world_after_measure ext cfg
                                  (iter_means ext cfg s0 m0 d0 p)
                                  (iter_vars ext cfg s0 m0 d0 p) (env q)))).
  { unfold candidate_returns. now rewrite (bind_raise _ _ _ _ _ Hacc). }
  now rewrite (bind_raise _ _ _ _ _ Hcand).
Qed.

Lemma empty_state_raises_witness :
  exists p',
    forward Scenario.ext Scenario.cfg [] Scenario.p0 = (Raise RuntimeError, p') /\
    reward_stats p' = [].
Proof.
  destruct (empty_state_raises Scenario.ext Scenario.cfg Scenario.p0)
    as (p' & Hrun & Hlog).
  - apply ScenarioFacts.interface. simpl. lia.
  - simpl. lia.
  - simpl. lia.
  - reflexivity.
  - exists p'. split; assumption.
Defined.

(** ** The reward log across a planning call *)

Section LogFacts.
Variable world : Type.
Variable ext : externals world.
Variable cfg : config.

Local Abbreviation E := (ensemble_size ext).
Local Abbreviation A := (action_size cfg).
Local Abbreviation H := (plan_horizon cfg).
Local Abbreviation C := (n_candidates cfg).
Local Abbreviation K := (top_candidates cfg).

Lemma iter_planner_appends s0 mean std p :
  exists added,
    reward_stats (iter_planner ext cfg s0 mean std p) = reward_stats p ++ added /\
    length added = (if use_reward cfg then 1 else 0) /\
    Forall (shape1 C) added.
Proof.
  unfold iter_planner, scored_planner. destruct (use_reward cfg).
  - eexists. split; [reflexivity|]. split; [reflexivity|].
    constructor; [|constructor]. unfold shape1, rewards_of.
    now rewrite length_map, length_seq.
  - exists []. cbn [reward_stats set_env iter_rolled]. rewrite app_nil_r.
    repeat split. constructor.
Qed.

(** The loop, with what it appends to the log and where its result comes
    from: the refit of the elites of the last iteration. *)
Lemma cem_loop_trace D s0 n : forall a dist p,
  interface_ok ext cfg D -> 0 < H -> K <= C ->
  (use_reward cfg = true -> 0 < D) ->
  shape3 E C D s0 -> shape3 H 1 A (fst dist) -> shape3 H 1 A (snd dist) ->
  exists mean std p' added,
    for_each (seq a n) (fun _ => cem_iteration ext cfg D s0) dist p
    = (Ok (mean, std), p') /\
    reward_stats p' = reward_stats p ++ added /\
    length added = (if use_reward cfg then n else 0) /\
    Forall (shape1 C) added /\
    (0 < n ->
     exists idx actions,
       length idx = K /\ NoDup idx /\ (forall i, In i idx -> i < C) /\
       shape3 H C A actions /\
       (mean, std) = refit cfg (gather_dim1 idx actions)).
Proof.
  induction n as [|n IH]; intros a [mean std] p Hok HH HK HD Hs0 Hm Hs.
  - exists mean, std, p, []. rewrite app_nil_r.
    split; [reflexivity|]. split; [reflexivity|].
    split; [now destruct (use_reward cfg)|]. split; [constructor | lia].
  - cbn [fst snd] in Hm, Hs.
    destruct (cem_iteration_run world ext cfg D s0 mean std p Hok HH HK HD
                Hs0 Hm Hs) as (idx & _ & Hlen & Hnd & Hr & Hrun).
    destruct (iter_shapes world ext cfg D s0 mean std p Hok Hs0 Hm Hs)
      as (Ha & _).
    destruct (iter_planner_appends s0 mean std p) as (add1 & Hl1 & Hn1 & Hf1).
    cbn [seq for_each]. rewrite (bind_ok _ _ _ _ _ Hrun).
    pose proof Ha as [Hal _].
    destruct (IH (S a) (refit cfg (gather_dim1 idx (iter_actions ext cfg mean std p)))
                 (iter_planner ext cfg s0 mean std p) Hok HH HK HD Hs0)
      as (mean' & std' & p' & add2 & Hrun' & Hl2 & Hn2 & Hf2 & Hlast).
    + apply refit_shape. unfold gather_dim1. now rewrite length_map.
    + apply refit_shape. unfold gather_dim1. now rewrite length_map.
    + exists mean', std', p', (add1 ++ add2).
      split; [exact Hrun'|]. split; [now rewrite Hl2, Hl1, app_assoc|].
      split; [rewrite length_app, Hn1, Hn2; now destruct (use_reward cfg)|].
      split; [now apply Forall_app|].
      intros _. destruct n as [|n].
      * cbn [seq for_each] in Hrun'. unfold ret in Hrun'.
        exists idx, (iter_actions ext cfg mean std p).
        repeat split; trivial; try apply Ha. congruence.
      * apply Hlast. lia.
Qed.

Lemma forward_trace state p :
  interface_ok ext cfg (length state) -> 0 < H -> K <= C ->
  (use_reward cfg = true -> state <> []) ->
  exists mean std v p' added,
    forward ext cfg state p = (Ok v, p') /\
    nth 0 mean [] = [v] /\
    reward_stats p' = reward_stats p ++ added /\
    length added = (if use_reward cfg then optimisation_iters cfg else 0) /\
    Forall (shape1 C) added /\
    (0 < optimisation_iters cfg ->
     exists idx actions,
       length idx = K /\ NoDup idx /\ (forall i, In i idx -> i < C) /\
       shape3 H C A actions /\
       (mean, std) = refit cfg (gather_dim1 idx actions)).
Proof.
  intros Hok HH HK Hst.
  assert (HD : use_reward cfg = true -> 0 < length state).
  { intros Hr. specialize (Hst Hr). destruct state; [congruence | simpl; lia]. }
  destruct (cem_loop_trace (length state) (repeat (repeat state C) E)
              (optimisation_iters cfg) 0
              (full3 H 1 A zero, full3 H 1 A one) p Hok HH HK HD
              (state_batch_shape world ext cfg state) (full3_shape _ _ _ _)
              (full3_shape _ _ _ _))
    as (mean & std & p' & added & Hrun & Hl & Hn & Hf & Hlast).
  destruct (forward_run world ext cfg state p Hok HH HK HD)
    as (mean2 & std2 & v & p2 & Hrun2 & _ & _ & Hrow & _ & Hfw & _).
  unfold cem_loop in Hrun2. rewrite Hrun in Hrun2.
  inversion Hrun2; subst mean2 std2 p2.
  exists mean, std, v, p', added. repeat split; trivial.
Qed.

End LogFacts.

(** X6: a successful plan appends to the reward log one vector of
    [n_candidates] values per optimisation iteration when reward scoring is
    on, and nothing when it is off; what was logged before stays in place. *)
Theorem plan_extends_log {world : Type} (ext : externals world) (cfg : config)
    (state : tensor1) (p : planner world) :
  valid_config cfg ->
  interface_ok ext cfg (length state) ->
  (use_reward cfg = true -> state <> []) ->
  exists v p' added,
    forward ext cfg state p = (Ok v, p') /\
    reward_stats p' = reward_stats p ++ added /\
    length added = (if use_reward cfg then optimisation_iters cfg else 0) /\
    Forall (shape1 (n_candidates cfg)) added.
Proof.
  intros (_ & HH & _ & _ & _ & HK) Hok Hst.
  destruct (forward_trace world ext cfg state p Hok HH HK Hst)
    as (mean & std & v & p' & added & Hfw & _ & Hl & Hn & Hf & _).
  exists v, p', added. repeat split; assumption.
Qed.

Lemma plan_extends_log_witness :
  exists v p' r1 r2,
    forward Scenario.ext Scenario.cfg Scenario.state Scenario.p0 = (Ok v, p') /\
    reward_stats p' = [r1; r2].
Proof.
  destruct (plan_extends_log Scenario.ext Scenario.cfg Scenario.state
              Scenario.p0 ScenarioFacts.cfg_valid ScenarioFacts.interface_cfg)
    as (v & p' & added & Hfw & Hl & Hn & _).
  - discriminate.
  - destruct added as [|r1 [|r2 [|r3 rest]]]; try discriminate.
    exists v, p', r1, r2. split; assumption.
Defined.

(** X7: after a successful plan with reward scoring on, [get_stats]
    succeeds: it returns the statistics of every value logged before and
    during the plan, flattened, and leaves the log empty. *)
Theorem plan_then_drain {world : Type} (ext : externals world) (cfg : config)
    (state : tensor1) (p : planner world) :
  valid_config cfg ->
  interface_ok ext cfg (length state) ->
  use_reward cfg = true -> state <> [] -> log_ok cfg p ->
  exists v p' added mx mn,
    forward ext cfg state p = (Ok v, p') /\
    length added = optimisation_iters cfg /\
    let flat := concat (reward_stats p ++ added) in
    get_stats ext cfg p'
    = (Ok (info_stats ext cfg p',
           {| stat_max := mx; stat_mean := mean_list flat;
              stat_min := mn; stat_std := std_list true flat |}),
       {| reward_stats := []; env := env (after_info ext cfg p') |}) /\
    tensor_max flat = Ok mx /\ tensor_min flat = Ok mn.
Proof.
  intros Hv Hok Hr Hst Hlog.
  pose proof Hv as (_ & HH & Hit & HC & _ & HK).
  destruct (forward_trace world ext cfg state p Hok HH HK (fun _ => Hst))
    as (mean & std & v & p' & added & Hfw & _ & Hl & Hn & Hf & _).
  rewrite Hr in Hn.
  assert (Hne : reward_stats p ++ added <> []).
  { destruct added; [simpl in Hn; lia|]. now destruct (reward_stats p). }
  assert (Hall : Forall (shape1 (n_candidates cfg)) (reward_stats p ++ added))
    by now apply Forall_app.
  pose proof (concat_nonempty (n_candidates cfg) _ HC Hne Hall) as Hflat.
  destruct (concat (reward_stats p ++ added)) as [|x xs] eqn:Ef;
    [congruence|].
  exists v, p', added, (fold_left Scalar.max xs x), (fold_left Scalar.min xs x).
  split; [exact Hfw|]. split; [exact Hn|]. cbv zeta. rewrite Ef.
  split; [|split; reflexivity].
  rewrite get_stats_run, Hl.
  rewrite (stack1_uniform (n_candidates cfg)) by assumption.
  rewrite Ef. reflexivity.
Qed.

Lemma plan_then_drain_witness :
  exists v p' stats p'',
    forward Scenario.ext Scenario.cfg Scenario.state Scenario.p0 = (Ok v, p') /\
    get_stats Scenario.ext Scenario.cfg p' = (Ok stats, p'') /\
    reward_stats p'' = [].
Proof.
  destruct (plan_then_drain Scenario.ext Scenario.cfg Scenario.state
              Scenario.p0 ScenarioFacts.cfg_valid ScenarioFacts.interface_cfg
              eq_refl)
    as (v & p' & added & mx & mn & Hfw & _ & Hget & _).
  - discriminate.
  - constructor.
  - do 4 eexists. split; [exact Hfw|]. split; [exact Hget | reflexivity].
Defined.

(** X8: [get_stats] cannot succeed twice in a row: after a successful call
    the log is empty and the next call raises a [RuntimeError]. *)
Theorem second_drain_raises {world : Type} (ext : externals world)
    (cfg : config) (p : planner world) (r : stats_map * reward_summary) :
  fst (get_stats ext cfg p) = Ok r ->
  reward_stats (snd (get_stats ext cfg p)) = [] /\
  fst (get_stats ext cfg (snd (get_stats ext cfg p))) = Raise RuntimeError.
Proof.
  rewrite (get_stats_run world ext cfg p).
  destruct (stack1 (reward_stats p)) as [t|e]; [|discriminate].
  destruct (tensor_max (concat t)) as [mx|e]; [|discriminate].
  destruct (tensor_min (concat t)) as [mn|e]; [|discriminate].
  intros _. cbn [fst snd]. split; [reflexivity|].
  now rewrite get_stats_run.
Qed.

Lemma second_drain_raises_witness :
  fst (get_stats Scenario.ext Scenario.cfg
         (snd (get_stats Scenario.ext Scenario.cfg
                 {| reward_stats := [[Num 1; Num 2; Num 3]]; env := 0 |})))
  = Raise RuntimeError.
Proof.
  eapply (second_drain_raises Scenario.ext Scenario.cfg
            {| reward_stats := [[Num 1; Num 2; Num 3]]; env := 0 |}).
  reflexivity.
Defined.

(** ** Values of the statistics *)

Lemma fold_absorbs (op : scalar -> scalar -> scalar) l :
  (forall x, op NaN x = NaN) -> (forall x, op x NaN = NaN) ->
  forall a, a = NaN \/ In NaN l -> fold_left op l a = NaN.
Proof.
  intros Hl Hr. induction l as [|x l IH]; intros a Ha; cbn [fold_left].
  - destruct Ha as [Ha|[]]. exact Ha.
  - apply IH. destruct Ha as [->|[->|Hin]].
    + left. apply Hl.
    + left. apply Hr.
    + now right.
Qed.

Lemma tsum_nan l : In NaN l -> tsum l = NaN.
Proof.
  intros Hin. unfold tsum. apply fold_absorbs; auto.
  intros x. now destruct x.
Qed.

Lemma mean_nan l : In NaN l -> mean_list l = NaN.
Proof. intros Hin. unfold mean_list. now rewrite tsum_nan. Qed.

Lemma std_nan b l : In NaN l -> std_list b l = NaN.
Proof.
  intros Hin. unfold std_list. rewrite (mean_nan l Hin), tsum_nan; [reflexivity|].
  apply in_map_iff. exists NaN. split; [reflexivity | exact Hin].
Qed.

Lemma tensor_max_nan l : In NaN l -> tensor_max l = Ok NaN.
Proof.
  intros Hin. destruct l as [|x rest]; [destruct Hin|]. cbn [tensor_max].
  f_equal. apply fold_absorbs.
  - reflexivity.
  - intros y. now destruct y.
  - destruct Hin as [->|Hin]; [now left | now right].
Qed.

Lemma tensor_min_nan l : In NaN l -> tensor_min l = Ok NaN.
Proof.
  intros Hin. destruct l as [|x rest]; [destruct Hin|]. cbn [tensor_min].
  f_equal. apply fold_absorbs.
  - reflexivity.
  - intros y. now destruct y.
  - destruct Hin as [->|Hin]; [now left | now right].
Qed.

Lemma num_in_reals rs r : In (Num r) (map Num rs) -> In r rs.
Proof.
  intros Hin. apply in_map_iff in Hin. destruct Hin as (r' & Heq & Hin).
  now inversion Heq; subst.
Qed.

(** X9: the log holds the rewards as scored, before NaN normalisation; if
    one logged value is NaN, the four statistics [get_stats] returns are all
    NaN, and the log is cleared as usual. *)
Theorem nan_poisons_stats {world : Type} (ext : externals world) (cfg : config)
    (p : planner world) :
  log_ok cfg p -> In NaN (concat (reward_stats p)) ->
  get_stats ext cfg p
  = (Ok (info_stats ext cfg p,
         {| stat_max := NaN; stat_mean := NaN; stat_min := NaN;
            stat_std := NaN |}),
     {| reward_stats := []; env := env (after_info ext cfg p) |}).
Proof.
  intros Hlog Hin. rewrite get_stats_run.
  rewrite (stack1_uniform (n_candidates cfg)); trivial.
  - rewrite (tensor_max_nan _ Hin), (tensor_min_nan _ Hin).
    now rewrite (mean_nan _ Hin), (std_nan _ _ Hin).
  - intros Hnil. rewrite Hnil in Hin. destruct Hin.
Qed.

Lemma nan_poisons_stats_witness :
  fst (get_stats Scenario.ext Scenario.cfg
         {| reward_stats := [[Num 1; NaN; Num 3]]; env := 0 |})
  = Ok ([], {| stat_max := NaN; stat_mean := NaN; stat_min := NaN;
               stat_std := NaN |}).
Proof.
  rewrite (nan_poisons_stats Scenario.ext Scenario.cfg
             {| reward_stats := [[Num 1; NaN; Num 3]]; env := 0 |}).
  - reflexivity.
  - repeat constructor.
  - simpl. tauto.
Defined.

(** X11: when a single number was logged, maximum, mean and minimum are
    that number and the deviation, unbiased over one value, is NaN. *)
Theorem single_value_stats {world : Type} (ext : externals world)
    (cfg : config) (p : planner world) (x : R) :
  reward_stats p = [[Num x]] ->
  fst (get_stats ext cfg p)
  = Ok (info_stats ext cfg p,
        {| stat_max := Num x; stat_mean := Num x; stat_min := Num x;
           stat_std := NaN |}).
Proof.
  intros Hlog. rewrite get_stats_run, Hlog. cbn [stack1 forallb concat app].
  cbn [tensor_max tensor_min fold_left fst].
  assert (Hm : mean_list [Num x] = Num x).
  { change [Num x] with (map Num [x]).
    rewrite (mean_reals [x]) by discriminate. simpl. f_equal. field. }
  rewrite Hm. do 3 f_equal. unfold std_list. rewrite Hm.
  cbn [map length Nat.sub]. unfold sq_dev, tsum, of_nat. simpl.
  destruct (Req_dec_T 0 0); [reflexivity | lra].
Qed.

Lemma single_value_stats_witness :
  fst (get_stats Scenario.ext Scenario.cfg
         {| reward_stats := [[Num 5]]; env := 0 |})
  = Ok ([], {| stat_max := Num 5; stat_mean := Num 5; stat_min := Num 5;
               stat_std := NaN |}).
Proof.
  apply (single_value_stats Scenario.ext Scenario.cfg
           {| reward_stats := [[Num 5]]; env := 0 |} 5).
  reflexivity.
Defined.

(** ** Collapsed and degenerate distributions *)

Lemma gather_entry idx (actions : tensor3) t j a :
  t < length actions -> j < length idx ->
  entry3 (gather_dim1 idx actions) t j a = entry3 actions t (nth j idx 0) a.
Proof.
  intros Ht Hj. unfold entry3, gather_dim1.
  rewrite (nth_map_in _ actions t [] []) by assumption.
  now rewrite (nth_map_in _ idx j 0 []) by assumption.
Qed.

Section CollapseFacts.
Variable world : Type.
Variable ext : externals world.
Variable cfg : config.

Local Abbreviation E := (ensemble_size ext).
Local Abbreviation A := (action_size cfg).
Local Abbreviation H := (plan_horizon cfg).
Local Abbreviation C := (n_candidates cfg).
Local Abbreviation K := (top_candidates cfg).

(** Elites that agree with a mean entrywise refit to that mean with a zero
    deviation. *)
Lemma refit_of_copies mean best :
  shape3 H 1 A mean -> all_num3 mean -> shape3 H K A best -> 0 < K ->
  (forall t k a, t < H -> k < K -> a < A ->
     entry3 best t k a = entry3 mean t 0 a) ->
  refit cfg best = (mean, full3 H 1 A zero).
Proof.
  intros Sm Nm Sb HK Hcopy. pose proof Sb as [Lb _].
  destruct (refit_shape cfg best Lb) as [S1 S2].
  assert (Hcol : forall t a, t < H -> a < A ->
            exists x, entry3 mean t 0 a = Num x /\
              mean_list (column a (nth t best [])) = Num x /\
              std_list false (column a (nth t best [])) = zero).
  { intros t a Ht Ha.
    pose proof (all_num3_entry mean _ _ _ t 0 a Sm Nm Ht ltac:(lia) Ha) as Hx.
    destruct (entry3 mean t 0 a) as [x|] eqn:Ex; [|destruct Hx].
    exists x. split; [reflexivity|]. apply constant_mean_std.
    - apply (column_nonempty a _ K A); trivial.
      now apply shape3_nth with (n := H).
    - apply (constant_column best _ _ _ t a x Sb Ht).
      intros k Hk. now rewrite Hcopy, Ex. }
  unfold refit in *. cbn [fst snd] in S1, S2. f_equal.
  - apply entry3_ext with (n := H) (m := 1) (k := A); trivial.
    intros t j a Ht Hj Ha. replace j with 0 by lia.
    destruct (Hcol t a Ht Ha) as (x & -> & Hmx & _).
    rewrite <- Hmx. apply keep_entry; lia.
  - apply entry3_ext with (n := H) (m := 1) (k := A); trivial.
    + apply full3_shape.
    + intros t j a Ht Hj Ha. replace j with 0 by lia.
      destruct (Hcol t a Ht Ha) as (x & _ & _ & Hsx).
      rewrite full3_entry by lia. rewrite <- Hsx. apply keep_entry; lia.
Qed.

Lemma collapsed_iteration D s0 mean p :
  interface_ok ext cfg D -> 0 < H -> 0 < K -> K <= C ->
  (use_reward cfg = true -> 0 < D) ->
  all_num3 (fst (randn ext H C A (env p))) ->
  shape3 E C D s0 -> shape3 H 1 A mean -> all_num3 mean ->
  cem_iteration ext cfg D s0 (mean, full3 H 1 A zero) p
  = (Ok (mean, full3 H 1 A zero),
     iter_planner ext cfg s0 mean (full3 H 1 A zero) p).
Proof.
  intros Hok HH HK0 HK HD Hnoise Hs0 Sm Nm.
  pose proof (full3_shape H 1 A zero) as Sz.
  destruct (cem_iteration_run world ext cfg D s0 mean (full3 H 1 A zero) p
              Hok HH HK HD Hs0 Sm Sz) as (idx & _ & Hlen & _ & Hr & Hrun).
  rewrite Hrun. f_equal. f_equal.
  destruct (iter_shapes world ext cfg D s0 mean (full3 H 1 A zero) p
              Hok Hs0 Sm Sz) as (Sa & _).
  apply refit_of_copies; trivial.
  - now apply gather_shape.
  - intros t k a Ht Hk Ha. pose proof Sa as [La _].
    rewrite gather_entry by lia.
    assert (Hi : nth k idx 0 < C) by (apply Hr, nth_In; lia).
    unfold iter_actions. rewrite sample_actions_entry; trivial;
      try apply (ok_randn Hok).
    rewrite full3_entry by lia.
    pose proof (all_num3_entry mean _ _ _ t 0 a Sm Nm Ht ltac:(lia) Ha) as Hx.
    pose proof (all_num3_entry _ _ _ _ t (nth k idx 0) a (ok_randn Hok H C A (env p))
                  Hnoise Ht Hi Ha) as Hz.
    destruct (entry3 mean t 0 a) as [x|]; [|destruct Hx].
    destruct (entry3 _ t (nth k idx 0) a) as [z|]; [|destruct Hz].
    simpl. f_equal. lra.
Qed.

Lemma collapsed_loop D s0 mean n : forall a p,
  interface_ok ext cfg D -> 0 < H -> 0 < K -> K <= C ->
  (use_reward cfg = true -> 0 < D) -> randn_finite ext cfg ->
  shape3 E C D s0 -> shape3 H 1 A mean -> all_num3 mean ->
  exists p',
    for_each (seq a n) (fun _ => cem_iteration ext cfg D s0)
             (mean, full3 H 1 A zero) p
    = (Ok (mean, full3 H 1 A zero), p').
Proof.
  induction n as [|n IH]; intros a p Hok HH HK0 HK HD Hfin Hs0 Sm Nm.
  - exists p. reflexivity.
  - cbn [seq for_each].
    rewrite (bind_ok _ _ _ _ _
               (collapsed_iteration D s0 mean p Hok HH HK0 HK HD (Hfin (env p))
                  Hs0 Sm Nm)).
    now apply IH.
Qed.

End CollapseFacts.

(** X15: with a single elite the distribution collapses in the first
    iteration: the plan is the first action of the candidate selected in the
    first iteration, whatever the number of iterations that follow. *)
Theorem single_elite_plan {world : Type} (ext : externals world) (cfg : config)
    (state : tensor1) (p : planner world) :
  valid_config cfg -> top_candidates cfg = 1 ->
  interface_ok ext cfg (length state) -> randn_finite ext cfg ->
  (use_reward cfg = true -> state <> []) ->
  let noise := fst (randn ext (plan_horizon cfg) (n_candidates cfg)
                          (action_size cfg) (env p)) in
  let s0 := repeat (repeat state (n_candidates cfg)) (ensemble_size ext) in
  let zeros := full3 (plan_horizon cfg) 1 (action_size cfg) zero in
  let ones := full3 (plan_horizon cfg) 1 (action_size cfg) one in
  exists i p',
    topk (nan_to_zero (iter_returns ext cfg s0 zeros ones p)) 1 = Ok [i] /\
    i < n_candidates cfg /\
    forward ext cfg state p = (Ok (nth i (nth 0 noise []) []), p').
Proof.
  intros Hv HK1 Hok Hfin Hst noise s0 zeros ones. subst zeros ones.
  pose proof Hv as (_ & HH & Hit & _ & HK0 & HK).
  assert (HD : use_reward cfg = true -> 0 < length state).
  { intros Hr. specialize (Hst Hr). destruct state; [congruence | simpl; lia]. }
  assert (Sn : shape3 (plan_horizon cfg) (n_candidates cfg) (action_size cfg)
                      noise) by apply (ok_randn Hok).
  assert (Nn : all_num3 noise) by apply Hfin.
  destruct (cem_iteration_run world ext cfg (length state) s0
              (full3 (plan_horizon cfg) 1 (action_size cfg) zero)
              (full3 (plan_horizon cfg) 1 (action_size cfg) one) p
              Hok HH HK HD (state_batch_shape world ext cfg state)
              (full3_shape _ _ _ _) (full3_shape _ _ _ _))
    as (idx & Htop & Hlen & _ & Hr & Hrun).
  rewrite HK1 in Hlen, Htop. destruct idx as [|i [|]]; try discriminate.
  assert (Hi : i < n_candidates cfg) by (apply Hr; now left).
  unfold iter_actions in Hrun. fold noise in Hrun.
  rewrite sample_actions_initial in Hrun by exact Sn.
  set (best := gather_dim1 [i] noise) in *.
  assert (Sb : shape3 (plan_horizon cfg) 1 (action_size cfg) best).
  { apply (gather_shape cfg [i] noise 1); trivial. }
  assert (Nb : all_num3 best).
  { apply gather_num
      with (n := plan_horizon cfg) (m := n_candidates cfg) (k := action_size cfg);
      trivial. }
  assert (Hfix : refit cfg best
                 = (best, full3 (plan_horizon cfg) 1 (action_size cfg) zero)).
  { apply refit_of_copies; trivial; try (rewrite HK1; trivial; lia).
    intros t k a Ht Hk Ha. rewrite HK1 in Hk. now replace k with 0 by lia. }
  rewrite Hfix in Hrun.
  exists i. destruct (optimisation_iters cfg) as [|n] eqn:En; [lia|].
  destruct (collapsed_loop world ext cfg (length state) s0 best n 1
              (iter_planner ext cfg s0
                 (full3 (plan_horizon cfg) 1 (action_size cfg) zero)
                 (full3 (plan_horizon cfg) 1 (action_size cfg) one) p) Hok HH HK0 HK HD Hfin
              (state_batch_shape world ext cfg state) Sb Nb) as (p' & Hloop).
  exists p'. split; [exact Htop|]. split; [exact Hi|].
  assert (Hall : cem_loop ext cfg (length state) s0 p
                 = (Ok (best, full3 (plan_horizon cfg) 1 (action_size cfg) zero),
                    p')).
  { unfold cem_loop. rewrite En. cbn [seq for_each].
    rewrite (bind_ok _ _ _ _ _ Hrun). exact Hloop. }
  unfold forward. fold s0.
  fold (cem_loop ext cfg (length state) s0).
  rewrite (bind_ok _ _ _ _ _ Hall).
  destruct Sn as [Ln _]. unfold best, gather_dim1.
  destruct noise as [|slab rest]; [simpl in Ln; lia|]. reflexivity.
Qed.

Lemma single_elite_plan_witness :
  exists i p',
    i < 3 /\
    forward Scenario.ext
      {| action_size := 1; plan_horizon := 2; optimisation_iters := 2;
         n_candidates := 3; top_candidates := 1; use_reward := true;
         use_exploration := true; expl_scale := one |}
      Scenario.state Scenario.p0
    = (Ok (nth i (nth 0 (Scenario.noise 2 3 1 0) []) []), p').
Proof.
  destruct (single_elite_plan Scenario.ext
              {| action_size := 1; plan_horizon := 2; optimisation_iters := 2;
                 n_candidates := 3; top_candidates := 1; use_reward := true;
                 use_exploration := true; expl_scale := one |}
              Scenario.state Scenario.p0)
    as (i & p' & _ & Hi & Hfw).
  - unfold valid_config. simpl. lia.
  - reflexivity.
  - apply ScenarioFacts.interface. simpl. lia.
  - intros w. apply ScenarioFacts.noise_num.
  - discriminate.
  - exists i, p'. split; [exact Hi | exact Hfw].
Defined.

Lemma mean_of_nothing : mean_list [] = NaN.
Proof.
  unfold mean_list, tsum, div, of_nat, zero. cbn [fold_left length INR].
  destruct (Req_dec_T 0 0); [reflexivity | lra].
Qed.

(** X16: [top_candidates = 0] is not refused: the selection is empty, the
    mean of no elite is NaN, and the plan is a vector of [action_size] NaN
    returned without any error. *)
Theorem empty_elite_plan_is_nan {world : Type} (ext : externals world)
    (cfg : config) (state : tensor1) (p : planner world) :
  interface_ok ext cfg (length state) ->
  0 < plan_horizon cfg -> 0 < optimisation_iters cfg ->
  top_candidates cfg = 0 ->
  (use_reward cfg = true -> state <> []) ->
  exists p',
    forward ext cfg state p = (Ok (repeat NaN (action_size cfg)), p').
Proof.
  intros Hok HH Hit HK Hst.
  destruct (forward_trace world ext cfg state p Hok HH ltac:(lia) Hst)
    as (mean & std & v & p' & added & Hfw & Hrow & _ & _ & _ & Hlast).
  destruct (Hlast Hit) as (idx & actions & Hlen & _ & _ & [La _] & Href).
  rewrite HK in Hlen. destruct idx; [|discriminate].
  exists p'. rewrite Hfw. do 2 f_equal.
  unfold refit in Href. inversion Href as [[Hmean Hstd]].
  rewrite Hmean in Hrow. unfold mean_dim1_keep, gather_dim1 in Hrow.
  rewrite map_map in Hrow.
  rewrite (nth_map_in _ actions 0 [] []) in Hrow by lia.
  inversion Hrow as [Hv]. clear Hrow. unfold reduce_dim0.
  rewrite repeat_map_seq. apply map_ext. intros c. apply mean_of_nothing.
Qed.

Lemma empty_elite_plan_is_nan_witness :
  exists p',
    forward Scenario.ext
      {| action_size := 2; plan_horizon := 2; optimisation_iters := 2;
         n_candidates := 3; top_candidates := 0; use_reward := true;
         use_exploration := true; expl_scale := one |}
      Scenario.state Scenario.p0
    = (Ok [NaN; NaN], p').
Proof.
  apply (empty_elite_plan_is_nan Scenario.ext
           {| action_size := 2; plan_horizon := 2; optimisation_iters := 2;
              n_candidates := 3; top_candidates := 0; use_reward := true;
              use_exploration := true; expl_scale := one |}
           Scenario.state Scenario.p0).
  - apply ScenarioFacts.interface. simpl. lia.
  - simpl. lia.
  - simpl. lia.
  - reflexivity.
  - discriminate.
Defined.

(** ** Selection *)

Lemma some_missing (better idx : list nat) :
  (forall j, In j better -> In j idx) \/
  (exists j, In j better /\ ~ In j idx).
Proof.
  induction better as [|b better IH].
  - left. intros j [].
  - destruct (in_dec Nat.eq_dec b idx) as [Hb|Hb].
    + destruct IH as [Hall|(j & Hj & Hn)].
      * left. intros j [<-|Hj]; auto.
      * right. exists j. split; [now right | exact Hn].
    + right. exists b. split; [now left | exact Hb].
Qed.

(** X17: a candidate whose return is NaN counts as 0 and cannot displace
    better candidates: when [k] candidates have a positive return, no
    candidate with a NaN return is among the [k] selected. *)
Theorem nan_candidate_not_elite (returns : tensor1) (k c : nat)
    (better idx : list nat) :
  c < length returns -> val returns c = NaN ->
  NoDup better -> length better = k ->
  (forall j, In j better ->
     j < length returns /\ exists r, val returns j = Num r /\ (0 < r)%R) ->
  topk (nan_to_zero returns) k = Ok idx ->
  ~ In c idx.
Proof.
  intros Hc Hnan Hnd Hlen Hbetter Htop Hin.
  assert (Hk : k <= length (nan_to_zero returns)).
  { rewrite nan_to_zero_length, <- Hlen.
    rewrite <- (length_seq (length returns) 0).
    apply (NoDup_incl_length Hnd).
    intros j Hj. apply in_seq. destruct (Hbetter j Hj). lia. }
  destruct (topk_ok (nan_to_zero returns) k Hk)
    as (idx' & Htop' & Hl & Hndi & _ & Hdom).
  rewrite Htop in Htop'. inversion Htop'; subst idx'. clear Htop'.
  rewrite nan_to_zero_length in Hdom.
  assert (Hcb : ~ In c better).
  { intros Hcb. destruct (Hbetter c Hcb) as (_ & r & Hr & _). congruence. }
  destruct (some_missing better idx) as [Hall|(j & Hj & Hnj)].
  - assert (Hle : length (c :: better) <= length idx).
    { apply NoDup_incl_length; [now constructor|].
      intros x [<-|Hx]; auto. }
    simpl in Hle. lia.
  - destruct (Hbetter j Hj) as (Hjl & r & Hr & Hpos).
    specialize (Hdom c j Hin Hjl Hnj).
    rewrite !nan_to_zero_nth in Hdom by assumption.
    rewrite Hnan, Hr in Hdom. cbn [isnan] in Hdom.
    apply le_num in Hdom. lra.
Qed.

Lemma nan_candidate_not_elite_witness :
  topk (nan_to_zero [Num 2; NaN; Num 1]) 2 = Ok [0; 2] /\ ~ In 1 [0; 2].
Proof.
  assert (Htop : topk (nan_to_zero [Num 2; NaN; Num 1]) 2 = Ok [0; 2]).
  { unfold topk, nan_to_zero. cbn -[Rlt_dec]. decide_reals.
    cbn -[Rlt_dec]. decide_reals. reflexivity. }
  split; [exact Htop|].
  apply (nan_candidate_not_elite [Num 2; NaN; Num 1] 2 1 [0; 2] [0; 2]);
    trivial.
  - simpl. lia.
  - repeat constructor; simpl; intuition lia.
  - intros j [<-|[<-|[]]]; (split; [simpl; lia|]);
      [exists 2%R | exists 1%R]; (split; [reflexivity | lra]).
Defined.

(** X18: the elite tensor is the gathered one, the reshape changes nothing
    and cannot fail: it has shape (H, K, A), and its row [j] holds, at every
    timestep, the actions of the one candidate [idx[j]]. *)
Theorem elite_rows_are_candidates (cfg : config) (idx : list nat)
    (actions : tensor3) :
  shape3 (plan_horizon cfg) (n_candidates cfg) (action_size cfg) actions ->
  length idx = top_candidates cfg ->
  (forall i, In i idx -> i < n_candidates cfg) ->
  select_elite cfg idx actions = Ok (gather_dim1 idx actions) /\
  shape3 (plan_horizon cfg) (top_candidates cfg) (action_size cfg)
         (gather_dim1 idx actions) /\
  forall t j a, t < plan_horizon cfg -> j < top_candidates cfg ->
    entry3 (gather_dim1 idx actions) t j a
    = entry3 actions t (nth j idx 0) a.
Proof.
  intros Sa Hl Hr. split; [now apply select_elite_run|].
  split; [now apply gather_shape|].
  intros t j a Ht Hj. destruct Sa as [La _]. apply gather_entry; lia.
Qed.

Lemma elite_rows_are_candidates_witness :
  select_elite Scenario.cfg [2; 0] (Scenario.noise 2 3 1 0)
  = Ok (gather_dim1 [2; 0] (Scenario.noise 2 3 1 0)).
Proof.
  apply (elite_rows_are_candidates Scenario.cfg [2; 0] (Scenario.noise 2 3 1 0)).
  - apply ScenarioFacts.noise_shape.
  - reflexivity.
  - intros i [<-|[<-|[]]]; simpl; lia.
Defined.

(** X19: every candidate is sampled around the same mean: the action of
    candidate [c] at timestep [t] is the mean of that timestep plus its
    deviation times the candidate's noise; in the first iteration, with mean
    0 and deviation 1, the candidate actions are the noise itself. *)
Theorem candidates_share_mean (cfg : config) (mean std noise : tensor3) :
  shape3 (plan_horizon cfg) 1 (action_size cfg) mean ->
  shape3 (plan_horizon cfg) 1 (action_size cfg) std ->
  shape3 (plan_horizon cfg) (n_candidates cfg) (action_size cfg) noise ->
  shape3 (plan_horizon cfg) (n_candidates cfg) (action_size cfg)
         (sample_actions cfg mean std noise) /\
  (forall t c a,
     t < plan_horizon cfg -> c < n_candidates cfg -> a < action_size cfg ->
     entry3 (sample_actions cfg mean std noise) t c a
     = add (entry3 mean t 0 a) (mul (entry3 std t 0 a) (entry3 noise t c a))) /\
  sample_actions cfg (full3 (plan_horizon cfg) 1 (action_size cfg) zero)
                 (full3 (plan_horizon cfg) 1 (action_size cfg) one) noise
  = noise.
Proof.
  intros Sm Ss Sn. split; [now apply sample_actions_shape|].
  split; [intros t c a Ht Hc Ha; now apply sample_actions_entry|].
  now apply sample_actions_initial.
Qed.

Lemma candidates_share_mean_witness :
  sample_actions Scenario.cfg (full3 2 1 1 zero) (full3 2 1 1 one)
                 (Scenario.noise 2 3 1 0)
  = Scenario.noise 2 3 1 0.
Proof.
  apply (candidates_share_mean Scenario.cfg (full3 2 1 1 zero)
           (full3 2 1 1 one) (Scenario.noise 2 3 1 0)).
  - apply full3_shape.
  - apply full3_shape.
  - apply ScenarioFacts.noise_shape.
Defined.

(** ** The plan and the reward log *)


(** X20: the plan does not depend on the reward log: two planners that
    differ only in what is logged return the same action and leave the
    collaborators in the same state. *)
Theorem plan_ignores_log {world : Type} (ext : externals world) (cfg : config)
    (state : tensor1) (p q : planner world) :
  valid_config cfg ->
  interface_ok ext cfg (length state) ->
  (use_reward cfg = true -> state <> []) ->
  env p = env q ->
  exists v p' q',
    forward ext cfg state p = (Ok v, p') /\
    forward ext cfg state q = (Ok v, q') /\
    env p' = env q'.
Proof.
  intros (_ & HH & _ & _ & _ & HK) Hok Hst He.
  assert (HD : use_reward cfg = true -> 0 < length state).
  { intros Hr. specialize (Hst Hr). destruct state; [congruence | simpl; lia]. }
  destruct (cem_loop_same_env world ext cfg (length state)
              (repeat (repeat state (n_candidates cfg)) (ensemble_size ext))
              (optimisation_iters cfg) 0
              (full3 (plan_horizon cfg) 1 (action_size cfg) zero,
               full3 (plan_horizon cfg) 1 (action_size cfg) one) p q
              Hok HH HK HD (state_batch_shape world ext cfg state)
              (full3_shape _ _ _ _) (full3_shape _ _ _ _) He)
    as ([mean std] & p' & q' & Hp & Hq & He').
  destruct (forward_run world ext cfg state p Hok HH HK HD)
    as (mean2 & std2 & v & p2 & Hrun2 & _ & _ & Hrow & _ & Hfw & _).
  unfold cem_loop in Hrun2. rewrite Hp in Hrun2.
  inversion Hrun2; subst mean2 std2 p2.
  exists v, p', q'. split; [exact Hfw|]. split; [|exact He'].
  unfold forward.
  fold (cem_loop ext cfg (length state)
          (repeat (repeat state (n_candidates cfg)) (ensemble_size ext))).
  unfold cem_loop. rewrite (bind_ok _ _ _ _ _ Hq).
  destruct mean as [|slab rest]; [discriminate|]. cbn [nth] in Hrow.
  subst slab. reflexivity.
Qed.

Lemma plan_ignores_log_witness :
  exists v p' q',
    forward Scenario.ext Scenario.cfg Scenario.state Scenario.p0 = (Ok v, p') /\
    forward Scenario.ext Scenario.cfg Scenario.state
      {| reward_stats := [[Num 7; Num 8; Num 9]]; env := 0 |} = (Ok v, q') /\
    env p' = env q'.
Proof.
  apply (plan_ignores_log Scenario.ext Scenario.cfg Scenario.state Scenario.p0
           {| reward_stats := [[Num 7; Num 8; Num 9]]; env := 0 |}
           ScenarioFacts.cfg_valid ScenarioFacts.interface_cfg).
  - discriminate.
  - reflexivity.
Defined.

(** ** The two contributions to the returns *)

Lemma scaled_column c (scale : scalar) (bonus : tensor2) :
  column c (map (map (fun x => mul x scale)) bonus)
  = map (fun row => mul (nth c row NaN) scale) bonus.
Proof.
  unfold column. rewrite map_map. apply map_ext. intros row.
  change NaN with ((fun x => mul x scale) NaN) at 1. apply map_nth.
Qed.

(** X21: with exploration on, the measure is called once and the returns
    start from its bonus: the contribution of a candidate is the sum over
    the timesteps of its bonus times [expl_scale]; with exploration off the
    measure is not called and the returns stay zero. *)
Theorem exploration_contribution {world : Type} (ext : externals world)
    (cfg : config) (dmeans dvars : tensor4) (p : planner world) :
  let bonus := fst (measure ext dmeans dvars (env p)) in
  (use_exploration cfg = true ->
   shape2 (plan_horizon cfg) (n_candidates cfg) bonus ->
   exists r,
     exploration_returns ext cfg (repeat zero (n_candidates cfg)) dmeans dvars p
     = (Ok r, set_env p (snd (measure ext dmeans dvars (env p)))) /\
     length r = n_candidates cfg /\
     forall c, c < n_candidates cfg ->
       val r c
       = tsum (map (fun row => mul (nth c row NaN) (expl_scale cfg)) bonus)) /\
  (use_exploration cfg = false ->
   exploration_returns ext cfg (repeat zero (n_candidates cfg)) dmeans dvars p
   = (Ok (repeat zero (n_candidates cfg)), p)).
Proof.
  intros bonus. split.
  - intros Hon _. unfold exploration_returns. rewrite Hon, bind_call.
    fold bonus. eexists. split; [reflexivity|]. split.
    + unfold tadd1. rewrite zip_with_length; rewrite repeat_length; trivial.
      now rewrite reduce_dim0_length.
    + intros c Hc.
      rewrite (tadd1_val _ _ (n_candidates cfg)); trivial;
        try apply repeat_length; try apply reduce_dim0_length.
      unfold val at 1. rewrite nth_repeat_lt by assumption.
      rewrite add_zero_l. unfold val. rewrite reduce_dim0_nth by assumption.
      now rewrite scaled_column.
  - intros Hoff. unfold exploration_returns. now rewrite Hoff.
Qed.

Lemma exploration_contribution_witness :
  exists r p',
    exploration_returns Scenario.ext Scenario.cfg (repeat zero 3)
      (repeat (repeat (repeat Scenario.state 3) 2) 2)
      (repeat (repeat (repeat Scenario.state 3) 2) 2) Scenario.p0
    = (Ok r, p') /\
    length r = 3.
Proof.
  destruct (exploration_contribution Scenario.ext Scenario.cfg
              (repeat (repeat (repeat Scenario.state 3) 2) 2)
              (repeat (repeat (repeat Scenario.state 3) 2) 2) Scenario.p0)
    as [Hon _].
  destruct (Hon eq_refl) as (r & Hrun & Hlen & _).
  - repeat constructor.
  - exists r. eexists. split; [exact Hrun | exact Hlen].
Defined.
